(** * InboxSorter v38.12: rule matching, address cache and actions

    A shallow embedding of [InboxSorter_v38_12.py] (class [EmailSorter]):
    [load_data], [load_cache_from_db], [save_smtp_cache], [get_smtp_address],
    [process_email], [execute_action] and [get_folder_recursive], the part of
    [__init__] that follows the reading of the configuration, and [migrate]
    of [migrate.py].

    Conventions.
    - A Python [str] is a [string]; [lower] folds the ASCII letters only.
    - A Python [dict] is an association list in insertion order (the keyword
      loop and the saved table follow that order) whose keys are pairwise
      distinct ([dict_wf]); assignment to a key already present keeps the
      key's slot.
    - A [try]/[except] block is a computation in [result] whose [Raise]
      outcome is handled by the caller of the block.
    - Outlook, the Excel workbook and the SQLite file are collaborators:
      they are part of the state and may refuse a call. *)

From Stdlib Require Import List String Ascii ZArith Bool Lia Arith.
Import ListNotations.
Open Scope string_scope.

Set Implicit Arguments.

(** ** Python strings *)

Module Py.

Definition lower_ascii (c : ascii) : ascii :=
  let n := nat_of_ascii c in
  if (65 <=? n)%nat && (n <=? 90)%nat then ascii_of_nat (n + 32) else c.

(** [s.lower()] *)
Fixpoint lower (s : string) : string :=
  match s with
  | EmptyString => EmptyString
  | String c r => String (lower_ascii c) (lower r)
  end.

(** [s.startswith(p)] *)
Fixpoint startswith (p s : string) : bool :=
  match p, s with
  | EmptyString, _ => true
  | String _ _, EmptyString => false
  | String a p', String b s' => Ascii.eqb a b && startswith p' s'
  end.

(** [sub in s] *)
Fixpoint contains (sub s : string) : bool :=
  startswith sub s ||
  match s with
  | EmptyString => false
  | String _ r => contains sub r
  end.

(** [s.split(sep)] for a separator of one character: [n] separators give
    [n + 1] parts, empty parts included. *)
Fixpoint split (sep : ascii) (s : string) : list string :=
  match s with
  | EmptyString => [EmptyString]
  | String c r =>
      if Ascii.eqb c sep then EmptyString :: split sep r
      else match split sep r with
           | h :: t => String c h :: t
           | [] => [String c EmptyString]
           end
  end.

(** Truthiness of a string. *)
Definition truthy (s : string) : bool :=
  match s with EmptyString => false | _ => true end.

(** [c.isspace()] for the ASCII characters: tab to carriage return, the
    four separators and the space. *)
Definition isspace (c : ascii) : bool :=
  let n := nat_of_ascii c in
  ((9 <=? n)%nat && (n <=? 13)%nat) || ((28 <=? n)%nat && (n <=? 32)%nat).

(** [s.lstrip()] *)
Fixpoint lstrip (s : string) : string :=
  match s with
  | EmptyString => EmptyString
  | String c r => if isspace c then lstrip r else s
  end.

(** [s.rstrip()] *)
Fixpoint rstrip (s : string) : string :=
  match s with
  | EmptyString => EmptyString
  | String c r =>
      match rstrip r with
      | EmptyString => if isspace c then EmptyString else String c EmptyString
      | kept => String c kept
      end
  end.

(** [s.strip()] *)
Definition strip (s : string) : string := rstrip (lstrip s).

(** [sep.join(parts)] for a separator of one character. *)
Fixpoint join (sep : ascii) (parts : list string) : string :=
  match parts with
  | [] => EmptyString
  | [p] => p
  | p :: rest => p ++ String sep (join sep rest)
  end.

End Py.

(** ** Python dictionaries with string keys *)

Section Dict.
Variable V : Type.

Definition dict := list (string * V).

Definition keys (d : dict) : list string := map fst d.

(** [d.get(k)], [None] when [k not in d] *)
Fixpoint dict_get (k : string) (d : dict) : option V :=
  match d with
  | [] => None
  | (k', v) :: r => if String.eqb k k' then Some v else dict_get k r
  end.

(** [k in d] *)
Definition dict_mem (k : string) (d : dict) : bool :=
  match dict_get k d with Some _ => true | None => false end.

(** [d[k] = v]: overwrite in place, or append a new key at the end. *)
Fixpoint dict_set (k : string) (v : V) (d : dict) : dict :=
  match d with
  | [] => [(k, v)]
  | (k', v') :: r =>
      if String.eqb k k' then (k', v) :: r else (k', v') :: dict_set k v r
  end.

(** [dict(pairs)]: later pairs overwrite earlier ones. *)
Definition dict_of_items (l : list (string * V)) : dict :=
  fold_left (fun d kv => dict_set (fst kv) (snd kv) d) l [].

Definition dict_wf (d : dict) : Prop := NoDup (keys d).

End Dict.

Arguments dict_get {V} k d.
Arguments dict_mem {V} k d.
Arguments dict_set {V} k v d.
Arguments dict_of_items {V} l.
Arguments dict_wf {V} d.
Arguments keys {V} d.

(** ** Exceptions *)

Inductive exn : Type := Exception (msg : string).

Definition exn_str (e : exn) : string := match e with Exception m => m end.

Inductive result (A : Type) : Type :=
| Ok (a : A)
| Raise (e : exn).

Arguments Ok {A} a.
Arguments Raise {A} e.

Definition getitem {A : Type} (o : option A) (key : string) : result A :=
  match o with
  | Some a => Ok a
  | None => Raise (Exception ("KeyError: " ++ key))
  end.

(** ** The sorter and the files it writes *)

Record EmailRule : Type := mkEmailRule { e_dest : string; sender_only : bool }.

Record KeywordRule : Type := mkKeywordRule { k_dest : string; field : string }.

(** The SQLite file behind [db_path]: absent, present without a readable
    [smtp_cache] table, or holding the rows of that table
    ([ExchangeAddress], [SMTPAddress]). *)
Inductive DbFile : Type :=
| Missing
| Unreadable
| Table (rows : list (string * string)).

(** What the file system does to one [save_smtp_cache]: nothing, or an error
    at [sqlite3.connect], at [to_sql] or at [CREATE INDEX].  [to_sql] with
    [if_exists='replace'] drops the old table, creates the new one and
    inserts the rows, so it can fail before the drop ([WriteFails]), after
    the drop ([CreateFails]: no table is left) or at the insert
    ([InsertFails]: the new table is left empty). *)
Inductive DbFault : Type :=
| Healthy
| ConnectFails
| WriteFails
| IndexFails
| CreateFails
| InsertFails.

Inductive Level : Type := INFO | ERROR | CRITICAL.

(** The attributes of [self], followed by what the object writes to: the two
    log files, the SQLite file, and the number of times [save_smtp_cache]
    has been entered. *)
Record EmailSorter : Type := mkSorter {
  cache_save_interval : Z;
  items_since_last_save : Z;
  email_rules : dict EmailRule;
  keyword_rules : dict KeywordRule;
  smtp_cache : dict string;
  invalid_logger : list (Level * string);
  live_logger : list (Level * string);
  db_file : DbFile;
  save_calls : nat
}.

Definition set_items_since_last_save (n : Z) (s : EmailSorter) : EmailSorter :=
  mkSorter (cache_save_interval s) n (email_rules s) (keyword_rules s)
           (smtp_cache s) (invalid_logger s) (live_logger s) (db_file s)
           (save_calls s).

Definition set_email_rules (r : dict EmailRule) (s : EmailSorter) : EmailSorter :=
  mkSorter (cache_save_interval s) (items_since_last_save s) r (keyword_rules s)
           (smtp_cache s) (invalid_logger s) (live_logger s) (db_file s)
           (save_calls s).

Definition set_keyword_rules (r : dict KeywordRule) (s : EmailSorter) : EmailSorter :=
  mkSorter (cache_save_interval s) (items_since_last_save s) (email_rules s) r
           (smtp_cache s) (invalid_logger s) (live_logger s) (db_file s)
           (save_calls s).

Definition set_smtp_cache (c : dict string) (s : EmailSorter) : EmailSorter :=
  mkSorter (cache_save_interval s) (items_since_last_save s) (email_rules s)
           (keyword_rules s) c (invalid_logger s) (live_logger s) (db_file s)
           (save_calls s).

Definition set_db_file (f : DbFile) (s : EmailSorter) : EmailSorter :=
  mkSorter (cache_save_interval s) (items_since_last_save s) (email_rules s)
           (keyword_rules s) (smtp_cache s) (invalid_logger s) (live_logger s) f
           (save_calls s).

Definition enter_save (s : EmailSorter) : EmailSorter :=
  mkSorter (cache_save_interval s) (items_since_last_save s) (email_rules s)
           (keyword_rules s) (smtp_cache s) (invalid_logger s) (live_logger s)
           (db_file s) (S (save_calls s)).

Definition log_invalid (l : Level) (msg : string) (s : EmailSorter) : EmailSorter :=
  mkSorter (cache_save_interval s) (items_since_last_save s) (email_rules s)
           (keyword_rules s) (smtp_cache s) (invalid_logger s ++ [(l, msg)])
           (live_logger s) (db_file s) (save_calls s).

Definition log_live (l : Level) (msg : string) (s : EmailSorter) : EmailSorter :=
  mkSorter (cache_save_interval s) (items_since_last_save s) (email_rules s)
           (keyword_rules s) (smtp_cache s) (invalid_logger s)
           (live_logger s ++ [(l, msg)])%list (db_file s) (save_calls s).

(** [__init__] before [load_data]: the interval comes from the configuration
    ([config.get("cache_save_interval", 100)]). *)
Definition init (interval : option Z) (db : DbFile) : EmailSorter :=
  mkSorter (match interval with Some n => n | None => 100%Z end) 0 [] [] []
           [] [] db 0.

(** ** [load_data] *)

Module Loader.

(** A spreadsheet cell as pandas hands it over: missing, a text, or a
    number (with the text [str] gives for it). *)
Inductive cell : Type := NaN | Text (s : string) | Number (shown : string).

Definition cell_eqb (a b : cell) : bool :=
  match a, b with
  | NaN, NaN => true
  | Text x, Text y => String.eqb x y
  | Number x, Number y => String.eqb x y
  | _, _ => false
  end.

Definition isna (c : cell) : bool :=
  match c with NaN => true | _ => false end.

(** [Series.dropna()] *)
Definition dropna (cs : list cell) : list cell :=
  filter (fun c => negb (isna c)) cs.

(** [Series.unique()]: first occurrences, in order. *)
Fixpoint unique (cs : list cell) : list cell :=
  match cs with
  | [] => []
  | c :: r => c :: filter (fun x => negb (cell_eqb c x)) (unique r)
  end.

(** [str(kw)] *)
Definition str (c : cell) : string :=
  match c with NaN => "nan" | Text s => s | Number shown => shown end.

Definition DataFrame : Type := dict (list cell).
Definition Workbook : Type := dict DataFrame.

(** One entry of [config['sheet_map']]; [None] is an absent key. *)
Record SheetInfo : Type := mkInfo {
  sheet : option string;
  destination_name : option string;
  column : option string;
  columns : option (list string);
  match_field : option string
}.

(** [for addr in addresses: self.email_rules[addr.lower()] = ...];
    [addr.lower()] raises on a cell that is not a text.  The rules stored
    before the error stay. *)
Fixpoint load_addresses (dest : string) (is_sender_only : bool)
         (addresses : list cell) (rules : dict EmailRule)
  : dict EmailRule * option exn :=
  match addresses with
  | [] => (rules, None)
  | Text addr :: r =>
      load_addresses dest is_sender_only r
        (dict_set (Py.lower addr) (mkEmailRule dest is_sender_only) rules)
  | _ :: _ =>
      (rules, Some (Exception "AttributeError: no attribute 'lower'"))
  end.

(** [for kw in keywords: self.keyword_rules[str(kw).lower()] = ...] *)
Fixpoint load_keywords (dest match_field : string) (keywords : list cell)
         (rules : dict KeywordRule) : dict KeywordRule :=
  match keywords with
  | [] => rules
  | kw :: r =>
      load_keywords dest match_field r
        (dict_set (Py.lower (str kw)) (mkKeywordRule dest match_field) rules)
  end.

(** [df[col]]; [col] is [None] when the configuration names no column. *)
Definition df_getitem (df : DataFrame) (col : option string)
  : result (list cell) :=
  match col with
  | Some c => getitem (dict_get c df) c
  | None => Raise (Exception "KeyError: None")
  end.

(** [for col in cols: ...] *)
Fixpoint load_keyword_columns (df : DataFrame) (dest match_field : string)
         (cols : list (option string)) (rules : dict KeywordRule)
  : dict KeywordRule * option exn :=
  match cols with
  | [] => (rules, None)
  | col :: r =>
      match df_getitem df col with
      | Raise e => (rules, Some e)
      | Ok cells =>
          load_keyword_columns df dest match_field r
            (load_keywords dest match_field (unique (dropna cells)) rules)
      end
  end.

Definition is_email_rule (rule_name : string) : bool :=
  Py.contains "Email" rule_name && negb (Py.contains "Keyword" rule_name).

(** The body of [for rule_name, info in sheet_map.items()]. *)
Definition load_sheet (xls : Workbook) (rule_name : string) (info : SheetInfo)
           (s : EmailSorter) : EmailSorter * option exn :=
  match getitem (sheet info) "sheet" with
  | Raise e => (s, Some e)
  | Ok name =>
  match getitem (dict_get name xls) name with
  | Raise e => (s, Some e)
  | Ok df =>
  match getitem (destination_name info) "destination_name" with
  | Raise e => (s, Some e)
  | Ok dest =>
      if is_email_rule rule_name then
        match getitem (column info) "column" with
        | Raise e => (s, Some e)
        | Ok col =>
            match df_getitem df (Some col) with
            | Raise e => (s, Some e)
            | Ok cells =>
                let is_sender_only := String.eqb rule_name "ResearchEmail" in
                let (rules, err) :=
                  load_addresses dest is_sender_only (unique (dropna cells))
                                 (email_rules s) in
                (set_email_rules rules s, err)
            end
        end
      else
        let cols := match columns info with
                    | Some l => map Some l
                    | None => [column info]
                    end in
        let match_field := match match_field info with
                           | Some f => f
                           | None => "subject_only"
                           end in
        let (rules, err) :=
          load_keyword_columns df dest match_field cols (keyword_rules s) in
        (set_keyword_rules rules s, err)
  end end end.

Fixpoint load_sheets (xls : Workbook) (sheet_map : dict SheetInfo)
         (s : EmailSorter) : EmailSorter * option exn :=
  match sheet_map with
  | [] => (s, None)
  | (rule_name, info) :: rest =>
      match load_sheet xls rule_name info s with
      | (s', None) => load_sheets xls rest s'
      | (s', Some e) => (s', Some e)
      end
  end.

(** [load_data]: one [try] around the whole loop; [xls] is [None] when the
    workbook cannot be opened. *)
Definition load_data (xls : option Workbook) (sheet_map : dict SheetInfo)
           (s : EmailSorter) : EmailSorter :=
  match xls with
  | None =>
      log_invalid CRITICAL "DataLoaderError||cannot open workbook" s
  | Some wb =>
      match load_sheets wb sheet_map s with
      | (s', None) => s'
      | (s', Some e) =>
          log_invalid CRITICAL ("DataLoaderError||" ++ exn_str e) s'
      end
  end.

End Loader.

(** ** The address cache *)

(** What [sender_obj.GetExchangeUser()] does: returns a user with its
    [PrimarySmtpAddress], returns [None], or raises. *)
Inductive ExchangeUser : Type :=
| User (PrimarySmtpAddress : string)
| NoUser
| LookupRaises.

Record AddressEntry : Type := mkEntry {
  AddressEntryUserType : Z;
  Address : string;
  GetExchangeUser : ExchangeUser
}.

(** A mail item; [Sender] is [None] when the accessor raises. *)
Record MailItem : Type := mkItem {
  Sender : option AddressEntry;
  SenderEmailAddress : string;
  Subject : string;
  Body : string
}.

Module Cache.

(** [dict(zip(df['ExchangeAddress'].str.lower(), df['SMTPAddress']))] *)
Definition rows_to_cache (rows : list (string * string)) : dict string :=
  dict_of_items (map (fun r => (Py.lower (fst r), snd r)) rows).

Definition load_cache_from_db (s : EmailSorter) : EmailSorter :=
  match db_file s with
  | Missing => set_smtp_cache [] s
  | Table rows => set_smtp_cache (rows_to_cache rows) s
  | Unreadable =>
      set_smtp_cache [] (log_invalid ERROR "DBLoadError|no such table" s)
  end.

(** [save_smtp_cache]: the table is replaced by [list(self.smtp_cache.items())],
    the index is created, and only then the counter is reset. *)
Definition save_smtp_cache (fault : DbFault) (s : EmailSorter) : EmailSorter :=
  let s := enter_save s in
  match fault with
  | ConnectFails =>
      log_invalid ERROR "DBSaveError|unable to open database file" s
  | WriteFails =>
      log_invalid ERROR "DBSaveError|database is locked" s
  | IndexFails =>
      log_invalid ERROR "DBSaveError|index not created"
                  (set_db_file (Table (smtp_cache s)) s)
  | CreateFails =>
      log_invalid ERROR "DBSaveError|table not created"
                  (set_db_file Unreadable s)
  | InsertFails =>
      log_invalid ERROR "DBSaveError|rows not inserted"
                  (set_db_file (Table []) s)
  | Healthy =>
      set_items_since_last_save 0 (set_db_file (Table (smtp_cache s)) s)
  end.

(** [get_smtp_address]; [fault] is what the file system does if this call
    reaches [save_smtp_cache].  The bare [except] turns every error into
    [None]. *)
Definition get_smtp_address (fault : DbFault) (item : MailItem)
           (s : EmailSorter) : option string * EmailSorter :=
  match Sender item with
  | None => (None, s)
  | Some sender_obj =>
      if (AddressEntryUserType sender_obj =? 0)%Z then
        let ex_addr := Py.lower (Address sender_obj) in
        match dict_get ex_addr (smtp_cache s) with
        | Some cached => (Some cached, s)
        | None =>
            match GetExchangeUser sender_obj with
            | LookupRaises => (None, s)
            | NoUser => (Some (SenderEmailAddress item), s)
            | User smtp =>
                let s1 := set_smtp_cache (dict_set ex_addr smtp (smtp_cache s)) s in
                let s2 := set_items_since_last_save
                            (items_since_last_save s1 + 1) s1 in
                let s3 := if (cache_save_interval s2 <=? items_since_last_save s2)%Z
                          then save_smtp_cache fault s2 else s2 in
                (Some smtp, s3)
            end
        end
      else (Some (SenderEmailAddress item), s)
  end.

(** A call is a new resolution when it misses the cache and the resolver
    returns a user. *)
Definition new_resolution (item : MailItem) (s : EmailSorter) : bool :=
  match Sender item with
  | Some sender_obj =>
      (AddressEntryUserType sender_obj =? 0)%Z
      && negb (dict_mem (Py.lower (Address sender_obj)) (smtp_cache s))
      && match GetExchangeUser sender_obj with User _ => true | _ => false end
  | None => false
  end.

(** A sequence of [get_smtp_address] calls, each with the state of the
    file system at that moment. *)
Fixpoint run (calls : list (DbFault * MailItem)) (s : EmailSorter) : EmailSorter :=
  match calls with
  | [] => s
  | (fault, item) :: rest => run rest (snd (get_smtp_address fault item s))
  end.

(** The number of new resolutions along a run. *)
Fixpoint new_resolutions (calls : list (DbFault * MailItem)) (s : EmailSorter) : nat :=
  match calls with
  | [] => 0
  | (fault, item) :: rest =>
      (if new_resolution item s then 1 else 0)
      + new_resolutions rest (snd (get_smtp_address fault item s))
  end.

(** Every call of the run is a new resolution. *)
Fixpoint all_new_resolutions (calls : list (DbFault * MailItem))
         (s : EmailSorter) : bool :=
  match calls with
  | [] => true
  | (fault, item) :: rest =>
      new_resolution item s
      && all_new_resolutions rest (snd (get_smtp_address fault item s))
  end.

End Cache.

(** ** The rule passes of [process_email] *)

Module Classifier.

(** The arguments [process_email] hands to [execute_action]. *)
Record Decision : Type := mkDecision {
  dest : string;
  trigger : string;
  match_type : string
}.

(** [# 1. Email Rules] *)
Definition sender_pass (s : EmailSorter) (sender_email : string)
  : option Decision :=
  match dict_get sender_email (email_rules s) with
  | Some rule_info =>
      if negb (sender_only rule_info) || Py.truthy sender_email
      then Some (mkDecision (e_dest rule_info) sender_email "EmailMatch")
      else None
  | None => None
  end.

(** The [match] flag of one turn of the keyword loop. *)
Definition kw_match (info : KeywordRule) (kw subject body : string) : bool :=
  if String.eqb (field info) "subject_only" && Py.contains kw subject
  then true
  else if String.eqb (field info) "subject_and_body"
          && (Py.contains kw subject || Py.contains kw body)
  then true
  else false.

(** [# 2. Keyword Rules]: the loop over [self.keyword_rules.items()], with
    the keywords it tested, in order. *)
Fixpoint keyword_pass (rules : dict KeywordRule) (subject body : string)
  : list string * option Decision :=
  match rules with
  | [] => ([], None)
  | (kw, info) :: rest =>
      if kw_match info kw subject body
      then ([kw], Some (mkDecision (k_dest info) kw "KeywordMatch"))
      else let (tested, d) := keyword_pass rest subject body in
           (kw :: tested, d)
  end.

Definition classify_steps (s : EmailSorter) (sender subject body : string)
  : list string * option Decision :=
  let subject := Py.lower subject in
  let body := Py.lower body in
  let sender_email := Py.lower sender in
  match sender_pass s sender_email with
  | Some d => ([], Some d)
  | None => keyword_pass (keyword_rules s) subject body
  end.

Definition classify (s : EmailSorter) (sender subject body : string)
  : option Decision :=
  snd (classify_steps s sender subject body).

End Classifier.

(** ** The mail client *)

Module Outlook.

(** A folder is named by the path that leads to it from [inbox_folder]. *)
Definition path : Type := list string.

Definition path_eqb (p q : path) : bool :=
  if list_eq_dec string_dec p q then true else false.

Inductive Call : Type :=
| FoldersItem (parent : path) (name : string)
| FoldersAdd (parent : path) (name : string)
| ItemMove (folder : path)
| ItemDelete
| ItemSubject.

(** The folders that exist, where the item is ([None] once deleted), the
    calls the client refuses given the calls made so far, and those
    calls, oldest first. *)
Record Mailbox : Type := mkMailbox {
  folders : list path;
  location : option path;
  refuses : list Call -> Call -> bool;
  calls : list Call
}.

Definition M (A : Type) : Type := Mailbox -> result A * Mailbox.

Definition ret {A : Type} (a : A) : M A := fun mb => (Ok a, mb).

Definition bind {A B : Type} (m : M A) (f : A -> M B) : M B :=
  fun mb => match m mb with
            | (Ok a, mb') => f a mb'
            | (Raise e, mb') => (Raise e, mb')
            end.

Definition record_call (c : Call) (mb : Mailbox) : Mailbox :=
  mkMailbox (folders mb) (location mb) (refuses mb) (calls mb ++ [c])%list.

(** Every call is recorded; a refused call has no other effect. *)
Definition invoke (c : Call) : M unit :=
  fun mb =>
    if refuses mb (calls mb) c
    then (Raise (Exception "com_error"), record_call c mb)
    else (Ok tt, record_call c mb).

(** The calls that change the mailbox: creating a folder, moving the
    item, deleting it. *)
Definition mutation (c : Call) : Prop :=
  match c with
  | FoldersAdd _ _ | ItemMove _ | ItemDelete => True
  | _ => False
  end.

(** The calls that look up or create a folder. *)
Definition folder_call (c : Call) : Prop :=
  match c with
  | FoldersItem _ _ | FoldersAdd _ _ => True
  | _ => False
  end.

Definition exists_folder (p : path) (mb : Mailbox) : bool :=
  existsb (path_eqb p) (folders mb).

(** The folder [part] below [parent]. *)
Definition child (parent : path) (part : string) : path :=
  (parent ++ [part])%list.

End Outlook.

Notation "x <- m ;; k" := (Outlook.bind m (fun x => k))
  (at level 61, m at next level, right associativity).
Notation "m ;;; k" := (Outlook.bind m (fun _ => k))
  (at level 61, right associativity).

Module Actions.
Import Outlook.

(** [node.Folders.Item(part)] *)
Definition Folders_Item (parent : path) (part : string) : M path :=
  invoke (FoldersItem parent part) ;;;
  fun mb => if exists_folder (child parent part) mb
            then (Ok (child parent part), mb)
            else (Raise (Exception "folder not found"), mb).

(** [node.Folders.Add(part)] *)
Definition Folders_Add (parent : path) (part : string) : M path :=
  invoke (FoldersAdd parent part) ;;;
  fun mb => if exists_folder (child parent part) mb
            then (Raise (Exception "folder already exists"), mb)
            else (Ok (child parent part),
                  mkMailbox (folders mb ++ [child parent part])%list
                            (location mb) (refuses mb) (calls mb)).

(** [item.Move(folder)] *)
Definition Item_Move (folder : path) : M unit :=
  invoke (ItemMove folder) ;;;
  fun mb => (Ok tt, mkMailbox (folders mb) (Some folder) (refuses mb) (calls mb)).

(** [item.Delete()] *)
Definition Item_Delete : M unit :=
  invoke ItemDelete ;;;
  fun mb => (Ok tt, mkMailbox (folders mb) None (refuses mb) (calls mb)).

(** [item.Subject] *)
Definition Item_Subject (item : MailItem) : M string :=
  invoke ItemSubject ;;; ret (Subject item).

(** The loop of [get_folder_recursive]: the bare [except] answers a failed
    [Folders.Item] with [Folders.Add], whose own failure propagates. *)
Fixpoint walk (current_node : path) (parts : list string) : M path :=
  match parts with
  | [] => ret current_node
  | part :: rest =>
      fun mb =>
        match Folders_Item current_node part mb with
        | (Ok node, mb1) => walk node rest mb1
        | (Raise _, mb1) =>
            (node <- Folders_Add current_node part ;; walk node rest) mb1
        end
  end.

Definition backslash : ascii := ascii_of_nat 92.

Definition get_folder_recursive (root_folder : path) (folder_path : string)
  : M path :=
  walk root_folder (Py.split backslash folder_path).

(** The [try] block of [execute_action]; its value is the line for the
    live log. *)
Definition action (item : MailItem) (dest_name : string) (inbox_folder : path)
           (trigger match_type : string) : M string :=
  if String.eqb dest_name "ToDelete" then
    Item_Delete ;;;
    subject <- Item_Subject item ;;
    ret ("DELETED|" ++ trigger ++ "|" ++ match_type ++ "|" ++ subject)
  else
    dest_folder <- get_folder_recursive inbox_folder dest_name ;;
    Item_Move dest_folder ;;;
    subject <- Item_Subject item ;;
    ret ("MOVED|" ++ dest_name ++ "|" ++ trigger ++ "|" ++ match_type
                  ++ "|" ++ subject).

Definition execute_action (item : MailItem) (dest_name : string)
           (inbox_folder : path) (trigger match_type : string)
           (s : EmailSorter) (mb : Mailbox)
  : bool * EmailSorter * Mailbox :=
  match action item dest_name inbox_folder trigger match_type mb with
  | (Ok line, mb') => (true, log_live INFO line s, mb')
  | (Raise e, mb') =>
      (false,
       log_invalid ERROR ("ActionError|" ++ dest_name ++ "|" ++ exn_str e) s,
       mb')
  end.

(** [process_email]: read the item, resolve the sender, run the two rule
    passes and act on the first match. *)
Definition process_email (fault : DbFault) (item : MailItem)
           (inbox_folder : path) (s : EmailSorter) (mb : Mailbox)
  : bool * EmailSorter * Mailbox :=
  match Item_Subject item mb with
  | (Raise e, mb1) =>
      (false, log_invalid ERROR ("ItemProcessError||" ++ exn_str e) s, mb1)
  | (Ok subject, mb1) =>
      let (resolved, s1) := Cache.get_smtp_address fault item s in
      let sender := match resolved with Some a => a | None => "" end in
      match Classifier.classify s1 sender subject (Body item) with
      | Some d =>
          execute_action item (Classifier.dest d) inbox_folder
                         (Classifier.trigger d) (Classifier.match_type d) s1 mb1
      | None => (false, s1, mb1)
      end
  end.

End Actions.

(** ** Construction of the sorter *)

(** The configuration keys that [__init__] and [load_data] read with
    [config.get]; [None] is an absent key. *)
Record Config : Type := mkConfig {
  config_cache_save_interval : option Z;
  config_sheet_map : option (dict Loader.SheetInfo)
}.

(** [__init__] once the configuration is read and the loggers are open:
    the counters and tables are set, then [load_data] and
    [load_cache_from_db] run. *)
Definition construct (config : Config) (xls : option Loader.Workbook)
           (db : DbFile) : EmailSorter :=
  Cache.load_cache_from_db
    (Loader.load_data xls
       (match config_sheet_map config with Some m => m | None => [] end)
       (init (config_cache_save_interval config) db)).

(** Calls of [save_smtp_cache] in a row, with nothing in between. *)
Fixpoint flushes (faults : list DbFault) (s : EmailSorter) : EmailSorter :=
  match faults with
  | [] => s
  | fault :: rest => flushes rest (Cache.save_smtp_cache fault s)
  end.

(** The faults after which the table is as it was or holds the cache: all
    but a [to_sql] that fails once the old table is dropped. *)
Definition keeps_table (fault : DbFault) : Prop :=
  fault <> CreateFails /\ fault <> InsertFails.

(** ** [migrate.py] *)

Module Migrate.

(** The workbook at [excel_path]: absent, without the sheet [SMTP_Cache],
    without the column [ExchangeAddress], or with the rows of the sheet;
    a row is its [ExchangeAddress] cell and the rest of the row. *)
Inductive Excel (R : Type) : Type :=
| NoFile
| NoSheet
| NoColumn
| Sheet (rows : list (Loader.cell * R)).

Arguments NoFile {R}.
Arguments NoSheet {R}.
Arguments NoColumn {R}.
Arguments Sheet {R} rows.

(** What [migrate] leaves in the database: the file as it was, the table
    [smtp_cache] dropped, the table recreated without rows, or the table
    replaced by these rows. *)
Inductive Outcome (R : Type) : Type :=
| Untouched
| Dropped
| Emptied
| Written (rows : list (Loader.cell * R)).

Arguments Untouched {R}.
Arguments Dropped {R}.
Arguments Emptied {R}.
Arguments Written {R} rows.

Definition is_text (c : Loader.cell) : bool :=
  match c with Loader.Text _ => true | _ => false end.

(** The [.str] accessor works on a column of object type: an empty column
    or one that holds a text. *)
Definition str_accessor (column : list Loader.cell) : bool :=
  match column with
  | [] => true
  | _ => existsb is_text column
  end.

(** [.str.lower().str.strip()] on one cell: a cell that is not a text
    becomes missing. *)
Definition clean (c : Loader.cell) : Loader.cell :=
  match c with
  | Loader.Text s => Loader.Text (Py.strip (Py.lower s))
  | _ => Loader.NaN
  end.

(** [df.drop_duplicates(subset=['ExchangeAddress'])]: the first row of each
    address stays. *)
Fixpoint drop_duplicates {R : Type} (rows : list (Loader.cell * R))
  : list (Loader.cell * R) :=
  match rows with
  | [] => []
  | r :: rest =>
      r :: filter (fun x => negb (Loader.cell_eqb (fst r) (fst x)))
                  (drop_duplicates rest)
  end.

(** [migrate]; [fault] is what the file system does to the write. *)
Definition migrate {R : Type} (excel : Excel R) (fault : DbFault) : Outcome R :=
  match excel with
  | NoFile | NoSheet | NoColumn => Untouched
  | Sheet rows =>
      if str_accessor (map fst rows) then
        let df := drop_duplicates (map (fun r => (clean (fst r), snd r)) rows) in
        match fault with
        | ConnectFails | WriteFails => Untouched
        | CreateFails => Dropped
        | InsertFails => Emptied
        | IndexFails | Healthy => Written df
        end
      else Untouched
  end.

(** The rest of the first row whose address cell is [c]. *)
Fixpoint cell_get {R : Type} (c : Loader.cell) (rows : list (Loader.cell * R))
  : option R :=
  match rows with
  | [] => None
  | r :: rest => if Loader.cell_eqb c (fst r) then Some (snd r) else cell_get c rest
  end.

(** A row of two texts as the sheet and the table hold it, and the address
    of such a row cleaned as [migrate] cleans it. *)
Definition to_cells (row : string * string) : Loader.cell * Loader.cell :=
  (Loader.Text (fst row), Loader.Text (snd row)).

Definition clean_row (row : string * string) : string * string :=
  (Py.strip (Py.lower (fst row)), snd row).

End Migrate.

(** ** Predicates used in the statements *)

(** [sub] occurs in [s]. *)
Definition Substring (sub s : string) : Prop :=
  exists pre post, s = pre ++ sub ++ post.

(** The scope test of the keyword loop, in words: the keyword occurs in the
    subject under [subject_only], in the subject or the body under
    [subject_and_body]. *)
Definition rule_applies (info : KeywordRule) (kw subject body : string) : Prop :=
  (field info = "subject_only" /\ Substring kw subject) \/
  (field info = "subject_and_body" /\ (Substring kw subject \/ Substring kw body)).

(** All keys are already in lower case. *)
Definition normalised {V : Type} (d : dict V) : Prop :=
  Forall (fun k => Py.lower k = k) (keys d).

(** The resolver of the item does not produce an address. *)
Definition resolver_fails (item : MailItem) (ex_addr : string) : Prop :=
  exists sender_obj,
    Sender item = Some sender_obj /\
    AddressEntryUserType sender_obj = 0%Z /\
    Py.lower (Address sender_obj) = ex_addr /\
    (GetExchangeUser sender_obj = NoUser \/
     GetExchangeUser sender_obj = LookupRaises).

(** The resolver of the item produces [smtp] for [ex_addr]. *)
Definition resolver_gives (item : MailItem) (ex_addr smtp : string) : Prop :=
  exists sender_obj,
    Sender item = Some sender_obj /\
    AddressEntryUserType sender_obj = 0%Z /\
    Py.lower (Address sender_obj) = ex_addr /\
    GetExchangeUser sender_obj = User smtp.

(** Rows of the table stored under one key. *)
Definition rows_for (ex_addr : string) (f : DbFile) : list (string * string) :=
  match f with
  | Table rows => filter (fun r => String.eqb (fst r) ex_addr) rows
  | _ => []
  end.

(** A spreadsheet cell on which [addr.lower()] works or that [dropna]
    removes. *)
Definition loadable (c : Loader.cell) : Prop :=
  match c with Loader.Number _ => False | _ => True end.

(** The rows of the table [smtp_cache] in the SQLite file, none when the
    file or the table is absent. *)
Definition stored (f : DbFile) : list (string * string) :=
  match f with
  | Table rows => rows
  | _ => []
  end.

(** The cache entry that a successful lookup of the item's sender makes. *)
Definition resolved_pair (item : MailItem) : option (string * string) :=
  match Sender item with
  | Some sender_obj =>
      match GetExchangeUser sender_obj with
      | User smtp => Some (Py.lower (Address sender_obj), smtp)
      | _ => None
      end
  | None => None
  end.

(** The folders that a walk from [current_node] along [parts] visits, and
    the lookups it makes when it finds each of them. *)
Fixpoint nodes (current_node : Outlook.path) (parts : list string)
  : list Outlook.path :=
  match parts with
  | [] => []
  | part :: rest =>
      Outlook.child current_node part :: nodes (Outlook.child current_node part) rest
  end.

Fixpoint lookups (current_node : Outlook.path) (parts : list string)
  : list Outlook.Call :=
  match parts with
  | [] => []
  | part :: rest =>
      Outlook.FoldersItem current_node part
        :: lookups (Outlook.child current_node part) rest
  end.

(** No rule of the two tables has the destination [dest]. *)
Definition no_rule_to (dest : string) (s : EmailSorter) : Prop :=
  Forall (fun r => e_dest (snd r) <> dest) (email_rules s)
  /\ Forall (fun r => k_dest (snd r) <> dest) (keyword_rules s).

(** ** Sample data for the examples *)

Module Sample.

(** The rules of the scenario: one sender rule, two keyword rules. *)
Definition rules : EmailSorter :=
  set_keyword_rules
    [("urgent", mkKeywordRule "Inbox\Urgent" "subject_only");
     ("invoice", mkKeywordRule "Finance" "subject_only");
     ("inv", mkKeywordRule "Misc" "subject_and_body")]
    (set_email_rules [("a@x.com", mkEmailRule "Archive" false)]
                     (init None Missing)).

(** A sender-only rule stored under the empty address. *)
Definition empty_sender_rule : EmailSorter :=
  set_keyword_rules [("hello", mkKeywordRule "Misc" "subject_only")]
    (set_email_rules [("", mkEmailRule "Research" true)] (init None Missing)).

(** An empty keyword, under a known and under an unknown match field. *)
Definition empty_keyword : EmailSorter :=
  set_keyword_rules
    [("invoice", mkKeywordRule "Finance" "subject_only");
     ("", mkKeywordRule "Misc" "subject_and_body")]
    (init None Missing).

Definition empty_keyword_unknown_field : EmailSorter :=
  set_keyword_rules [("", mkKeywordRule "Misc" "body_only")] (init None Missing).

(** Exchange senders whose directory lookup works, and one whose lookup
    returns nothing. *)
Definition exchange_item (dn smtp : string) : MailItem :=
  mkItem (Some (mkEntry 0 dn (User smtp))) dn "Hello" "".

Definition alice : MailItem := exchange_item "/O=ORG/CN=ALICE" "alice@x.com".
Definition bob : MailItem := exchange_item "/O=ORG/CN=BOB" "bob@x.com".
Definition carol : MailItem := exchange_item "/O=ORG/CN=CAROL" "carol@x.com".

Definition alice_unresolved : MailItem :=
  mkItem (Some (mkEntry 0 "/O=ORG/CN=ALICE" NoUser)) "/O=ORG/CN=ALICE" "Hello" "".

Definition alice_lookup_error : MailItem :=
  mkItem (Some (mkEntry 0 "/O=ORG/CN=ALICE" LookupRaises)) "/O=ORG/CN=ALICE"
         "Hello" "".

(** An interval of 1, and the state after a first resolution whose flush
    could not write. *)
Definition eager : EmailSorter := init (Some 1%Z) Missing.

Definition after_failed_flush : EmailSorter :=
  Cache.run [(WriteFails, alice)] eager.

(** A cache as [get_smtp_address] builds it, and a legacy table with
    mixed-case keys. *)
Definition two_entries : EmailSorter :=
  Cache.run [(Healthy, alice); (Healthy, bob)] (init None Missing).

Definition two_entries_bob : EmailSorter :=
  Cache.run [(Healthy, bob); (Healthy, carol)] (init None Missing).

Definition legacy_rows : list (string * string) :=
  [("/O=ORG/CN=Alice", "old@x.com"); ("/o=org/cn=bob", "bob@x.com");
   ("/o=org/cn=ALICE", "alice@x.com")].


Definition senders_without_number : Loader.Workbook :=
  [("Senders",
    [("Email", [Loader.Text "A@x.com"; Loader.NaN; Loader.Text "b@x.com"])])].

Definition spam_senders : dict Loader.SheetInfo :=
  [("SpamEmail",
    Loader.mkInfo (Some "Senders") (Some "ToDelete") (Some "Email") None None)].

(** A mail client that accepts every call, one that rejects every move,
    and one whose items cannot be read once they are deleted; the item
    lies in the inbox and no folder exists yet. *)
Definition accepts_all : Outlook.Mailbox :=
  Outlook.mkMailbox [] (Some []) (fun _ _ => false) [].

Definition rejects_moves : Outlook.Mailbox :=
  Outlook.mkMailbox [] (Some [])
    (fun _ c => match c with Outlook.ItemMove _ => true | _ => false end) [].

Definition stale_after_delete : Outlook.Mailbox :=
  Outlook.mkMailbox [] (Some [])
    (fun history c =>
       match c with
       | Outlook.ItemSubject =>
           existsb (fun h => match h with Outlook.ItemDelete => true | _ => false end)
                   history
       | _ => false
       end) [].

(** A keyword sheet with two columns, one of them holding a number, and
    the configuration that loads both columns. *)
Definition keyword_book : Loader.Workbook :=
  [("Keywords",
    [("Words", [Loader.Text "Invoice"; Loader.NaN; Loader.Text "Payment due"]);
     ("Codes", [Loader.Number "4711"; Loader.Text "INVOICE"])])].

Definition finance_keywords : Loader.SheetInfo :=
  Loader.mkInfo (Some "Keywords") (Some "Finance") None
                (Some ["Words"; "Codes"]) (Some "subject_and_body").

(** A legacy cache sheet: addresses in mixed case with blanks around them,
    one of them twice. *)
Definition cache_sheet : list (string * string) :=
  [(" /O=ORG/CN=Alice", "alice@x.com"); ("/o=org/cn=bob  ", "bob@x.com");
   ("/o=org/cn=ALICE", "old@x.com")].

(** The same sender as [alice], seen later with the address in another case
    and a directory that now answers differently. *)
Definition alice_renamed : MailItem :=
  mkItem (Some (mkEntry 0 "/o=org/cn=Alice" (User "alice.new@x.com")))
         "/o=org/cn=Alice" "Hello again" "".

End Sample.

(** * Properties *)

(** ** Strings *)

Section PyFacts.
Import Py.

Lemma lower_ascii_idem (c : ascii) : lower_ascii (lower_ascii c) = lower_ascii c.
Proof.
  destruct c as [[] [] [] [] [] [] [] []]; reflexivity.
Qed.

Lemma lower_idem (s : string) : lower (lower s) = lower s.
Proof.
  induction s as [|c r IH]; simpl; [reflexivity|].
  now rewrite lower_ascii_idem, IH.
Qed.

Lemma startswith_spec (p s : string) :
  startswith p s = true <-> exists post, s = p ++ post.
Proof.
  revert s; induction p as [|a p IH]; intros s; simpl.
  - split; [intros _; now exists s | reflexivity].
  - destruct s as [|b s].
    + split; [discriminate | intros [post H]; discriminate].
    + rewrite andb_true_iff, Ascii.eqb_eq, IH. split.
      * intros [-> [post ->]]. now exists post.
      * intros [post H]. injection H as -> ->. split; [reflexivity | now exists post].
Qed.

Lemma contains_spec (sub s : string) :
  contains sub s = true <-> Substring sub s.
Proof.
  unfold Substring. induction s as [|c r IH]; simpl.
  - rewrite orb_false_r, startswith_spec. split.
    + intros [post H]. now exists "", post.
    + intros [pre [post H]]. destruct pre; [| discriminate].
      simpl in H. now exists post.
  - rewrite orb_true_iff, startswith_spec, IH. split.
    + intros [[post H] | [pre [post H]]].
      * now exists "", post.
      * exists (String c pre), post. simpl. now rewrite H.
    + intros [pre [post H]]. destruct pre as [|c' pre]; simpl in H.
      * left. now exists post.
      * right. injection H as _ H. now exists pre, post.
Qed.

Lemma contains_empty (s : string) : contains "" s = true.
Proof. destruct s; reflexivity. Qed.

Lemma truthy_spec (s : string) : truthy s = true <-> s <> "".
Proof.
  destruct s; simpl; split; congruence.
Qed.

End PyFacts.

(** ** Dictionaries *)

Section DictFacts.
Variable V : Type.
Implicit Types (d : dict V) (k : string) (v : V).

Lemma dict_get_In k d : dict_get k d <> None <-> In k (keys d).
Proof.
  induction d as [|[k' v'] r IH]; simpl.
  - split; [congruence | tauto].
  - destruct (String.eqb_spec k k') as [->|Hne].
    + split; [now left | congruence].
    + rewrite IH. split; [now right | intros [H|H]; [simpl in H; congruence | exact H]].
Qed.

Lemma dict_get_None k d : dict_get k d = None <-> ~ In k (keys d).
Proof.
  rewrite <- dict_get_In. destruct (dict_get k d); split; intros H.
  - discriminate.
  - exfalso. apply H. discriminate.
  - intros H'. now apply H'.
  - reflexivity.
Qed.

Lemma dict_get_set k k' v d :
  dict_get k (dict_set k' v d) = if String.eqb k k' then Some v else dict_get k d.
Proof.
  induction d as [|[k0 v0] r IH]; simpl.
  - reflexivity.
  - destruct (String.eqb_spec k' k0) as [->|Hne]; simpl.
    + destruct (String.eqb k k0); reflexivity.
    + rewrite IH. destruct (String.eqb_spec k k0) as [->|Hne'].
      * destruct (String.eqb_spec k0 k'); [congruence | reflexivity].
      * reflexivity.
Qed.

(** Assignment to a key already present keeps every key in its slot. *)
Lemma keys_set_present k v d : In k (keys d) -> keys (dict_set k v d) = keys d.
Proof.
  induction d as [|[k0 v0] r IH]; simpl; [tauto|].
  intros H. destruct (String.eqb_spec k k0) as [->|Hne]; simpl.
  - reflexivity.
  - f_equal. apply IH. destruct H; [congruence | assumption].
Qed.

(** Assignment to a new key appends it. *)
Lemma set_absent k v d : ~ In k (keys d) -> dict_set k v d = (d ++ [(k, v)])%list.
Proof.
  induction d as [|[k0 v0] r IH]; simpl; [reflexivity|].
  intros H. destruct (String.eqb_spec k k0) as [->|Hne].
  - exfalso. apply H. now left.
  - f_equal. apply IH. tauto.
Qed.

Lemma keys_set k v d :
  keys (dict_set k v d) = if dict_mem k d then keys d else (keys d ++ [k])%list.
Proof.
  unfold dict_mem. destruct (dict_get k d) eqn:E.
  - apply keys_set_present, dict_get_In. congruence.
  - rewrite set_absent by now apply dict_get_None.
    unfold keys. now rewrite map_app.
Qed.

Lemma dict_wf_set k v d : dict_wf d -> dict_wf (dict_set k v d).
Proof.
  unfold dict_wf. intros H. rewrite keys_set. unfold dict_mem.
  destruct (dict_get k d) eqn:E; [exact H|].
  apply dict_get_None in E.
  apply NoDup_app; [exact H | repeat constructor; simpl; tauto |].
  intros x Hx [<-|[]]. contradiction.
Qed.

Lemma dict_of_items_snoc (l : list (string * V)) k v :
  dict_of_items (l ++ [(k, v)]) = dict_set k v (dict_of_items l).
Proof.
  unfold dict_of_items. now rewrite fold_left_app.
Qed.

(** [dict(pairs)[k]] is the value of the last pair with key [k]. *)
Lemma dict_get_of_items k (l : list (string * V)) :
  dict_get k (dict_of_items l) = dict_get k (rev l).
Proof.
  induction l as [|[k' v'] l IH] using rev_ind; [reflexivity|].
  rewrite dict_of_items_snoc, dict_get_set, rev_app_distr. simpl.
  now rewrite IH.
Qed.

Lemma dict_wf_of_items (l : list (string * V)) : dict_wf (dict_of_items l).
Proof.
  induction l as [|[k' v'] l IH] using rev_ind.
  - constructor.
  - rewrite dict_of_items_snoc. now apply dict_wf_set.
Qed.

Lemma keys_of_items_incl (l : list (string * V)) k :
  In k (keys (dict_of_items l)) -> In k (map fst l).
Proof.
  induction l as [|[k' v'] l IH] using rev_ind; [simpl; tauto|].
  rewrite dict_of_items_snoc, keys_set, map_app, in_app_iff. simpl.
  destruct (dict_mem k' (dict_of_items l)).
  - intros H. left. now apply IH.
  - rewrite in_app_iff. simpl. intros [H|[H|[]]]; [left; now apply IH | now right; left].
Qed.

Lemma fold_set_fresh (l : list (string * V)) (acc : dict V) :
  NoDup (keys acc ++ map fst l) ->
  fold_left (fun d kv => dict_set (fst kv) (snd kv) d) l acc = (acc ++ l)%list.
Proof.
  revert acc; induction l as [|[k v] l IH]; intros acc H; simpl.
  - now rewrite app_nil_r.
  - simpl in H. rewrite set_absent.
    + rewrite IH.
      * now rewrite <- app_assoc.
      * unfold keys. rewrite map_app. simpl. rewrite <- app_assoc. exact H.
    + apply NoDup_remove_2 in H. intros Hin. apply H.
      apply in_or_app. now left.
Qed.

(** Building a dictionary from the items of a dictionary gives it back. *)
Lemma dict_of_items_wf d : dict_wf d -> dict_of_items d = d.
Proof.
  intros H. unfold dict_of_items. now rewrite fold_set_fresh.
Qed.

End DictFacts.

(** ** The rule passes *)

Section ClassifierFacts.
Import Classifier.

Lemma kw_match_spec info kw subject body :
  kw_match info kw subject body = true <-> rule_applies info kw subject body.
Proof.
  unfold kw_match, rule_applies. rewrite <- !contains_spec.
  destruct (String.eqb_spec (field info) "subject_only") as [E1|N1];
    destruct (String.eqb_spec (field info) "subject_and_body") as [E2|N2];
    destruct (Py.contains kw subject), (Py.contains kw body); simpl;
    intuition congruence.
Qed.

Lemma kw_match_false info kw subject body :
  ~ rule_applies info kw subject body -> kw_match info kw subject body = false.
Proof.
  rewrite <- kw_match_spec. now destruct (kw_match info kw subject body).
Qed.

(** The keyword loop stops at the first rule that applies. *)
Lemma keyword_pass_first pre kw info post subject body :
  (forall k i, In (k, i) pre -> ~ rule_applies i k subject body) ->
  rule_applies info kw subject body ->
  keyword_pass (pre ++ (kw, info) :: post)%list subject body =
    ((keys pre ++ [kw])%list, Some (mkDecision (k_dest info) kw "KeywordMatch")).
Proof.
  intros Hpre Hkw. induction pre as [|[k i] pre IH]; simpl.
  - apply kw_match_spec in Hkw. now rewrite Hkw.
  - rewrite kw_match_false by (apply Hpre; now left).
    rewrite IH; [reflexivity|]. intros k' i' H. apply Hpre. now right.
Qed.

Lemma keyword_pass_none rules subject body :
  (forall k i, In (k, i) rules -> ~ rule_applies i k subject body) ->
  keyword_pass rules subject body = (keys rules, None).
Proof.
  induction rules as [|[k i] rules IH]; intros H; simpl; [reflexivity|].
  rewrite kw_match_false by (apply H; now left).
  rewrite IH; [reflexivity|]. intros k' i' H'. apply H. now right.
Qed.

(** The loop answers as soon as some rule applies. *)
Lemma keyword_pass_some rules subject body kw info :
  In (kw, info) rules -> rule_applies info kw subject body ->
  snd (keyword_pass rules subject body) <> None.
Proof.
  induction rules as [|[k i] rules IH]; simpl; [tauto|].
  intros [H|H] Hap.
  - injection H as -> ->. apply kw_match_spec in Hap. rewrite Hap. discriminate.
  - destruct (kw_match i k subject body); [discriminate|].
    specialize (IH H Hap). now destruct (keyword_pass rules subject body).
Qed.

Lemma sender_pass_hit s sender_email rule_info :
  dict_get sender_email (email_rules s) = Some rule_info ->
  sender_only rule_info = false \/ sender_email <> "" ->
  sender_pass s sender_email =
    Some (mkDecision (e_dest rule_info) sender_email "EmailMatch").
Proof.
  intros Hget Hguard. unfold sender_pass. rewrite Hget.
  destruct Hguard as [->|Hne]; [reflexivity|].
  apply truthy_spec in Hne. rewrite Hne. now rewrite orb_true_r.
Qed.

End ClassifierFacts.

(** C1 (amended).  If the lower-cased sender address is a key of the
    sender-rule table, and the rule is not sender-only or the address is not
    empty, then the rule passes return that rule's destination with
    match type [EmailMatch] and the sender address as trigger, whatever the
    subject, the body and the keyword table are, and no keyword is tested. *)
Theorem sender_rule_dominates :
  forall s sender subject body rule_info,
    dict_get (Py.lower sender) (email_rules s) = Some rule_info ->
    sender_only rule_info = false \/ Py.lower sender <> "" ->
    Classifier.classify_steps s sender subject body =
      ([], Some (Classifier.mkDecision (e_dest rule_info) (Py.lower sender)
                                       "EmailMatch")).
Proof.
  intros s sender subject body rule_info Hget Hguard.
  unfold Classifier.classify_steps.
  now rewrite (sender_pass_hit s Hget Hguard).
Qed.

Lemma sender_rule_dominates_witness :
  dict_get (Py.lower "A@X.com") (email_rules Sample.rules)
    = Some (mkEmailRule "Archive" false)
  /\ Classifier.classify_steps Sample.rules "A@X.com" "Invoice attached" "inv"
     = ([], Some (Classifier.mkDecision "Archive" "a@x.com" "EmailMatch")).
Proof.
  split; [reflexivity|].
  apply (@sender_rule_dominates Sample.rules "A@X.com" "Invoice attached" "inv"
           (mkEmailRule "Archive" false)).
  - reflexivity.
  - left. reflexivity.
Defined.

(** C1 as stated fails: the empty address is a key of the sender-rule table,
    its rule is sender-only, and the message goes to the keyword loop. *)
Lemma sender_rule_guard_counterexample :
  dict_get (Py.lower "") (email_rules Sample.empty_sender_rule)
    = Some (mkEmailRule "Research" true)
  /\ Classifier.classify_steps Sample.empty_sender_rule "" "Hello" ""
     = (["hello"], Some (Classifier.mkDecision "Misc" "hello" "KeywordMatch"))
  /\ Classifier.classify_steps Sample.empty_sender_rule "" "Hello" ""
     <> ([], Some (Classifier.mkDecision "Research" "" "EmailMatch")).
Proof.
  split; [reflexivity|]. split; [reflexivity|]. discriminate.
Qed.



(** C10 (amended).  If the keyword table holds the empty keyword under the
    match field [subject_only] or [subject_and_body], the rule passes never
    answer [None]; and a message that no sender rule and no earlier keyword
    rule takes is answered by that entry. *)
Theorem empty_keyword_matches_everything :
  forall s sender subject body pre info post,
    keyword_rules s = (pre ++ ("", info) :: post)%list ->
    field info = "subject_only" \/ field info = "subject_and_body" ->
    Classifier.classify s sender subject body <> None
    /\ (Classifier.sender_pass s (Py.lower sender) = None ->
        (forall k i, In (k, i) pre ->
                     ~ rule_applies i k (Py.lower subject) (Py.lower body)) ->
        Classifier.classify s sender subject body =
          Some (Classifier.mkDecision (k_dest info) "" "KeywordMatch")).
Proof.
  intros s sender subject body pre info post Hrules Hfield.
  assert (Hap : forall subj bod, rule_applies info "" subj bod).
  { intros subj bod. apply kw_match_spec. unfold Classifier.kw_match.
    rewrite !contains_empty.
    destruct Hfield as [-> | ->]; reflexivity. }
  unfold Classifier.classify, Classifier.classify_steps. split.
  - destruct (Classifier.sender_pass s (Py.lower sender)); [discriminate|].
    apply keyword_pass_some with (kw := "") (info := info); [|apply Hap].
    rewrite Hrules. apply in_or_app. right. now left.
  - intros -> Hpre. rewrite Hrules.
    now rewrite (keyword_pass_first pre post Hpre (Hap _ _)).
Qed.

Lemma empty_keyword_matches_everything_witness :
  Classifier.classify Sample.empty_keyword "b@x.com" "Hello" "world" <> None
  /\ Classifier.classify Sample.empty_keyword "b@x.com" "Hello" "world"
     = Some (Classifier.mkDecision "Misc" "" "KeywordMatch").
Proof.
  destruct (@empty_keyword_matches_everything Sample.empty_keyword "b@x.com"
              "Hello" "world"
              [("invoice", mkKeywordRule "Finance" "subject_only")]
              (mkKeywordRule "Misc" "subject_and_body") []) as [H1 H2].
  - reflexivity.
  - right. reflexivity.
  - split; [exact H1|]. apply H2.
    + reflexivity.
    + intros k i [H|[]]. injection H as <- <-.
      rewrite <- kw_match_spec. vm_compute. discriminate.
Defined.

(** C10 as stated fails: an empty keyword stored under a match field that
    the loop does not know applies to no message. *)
Lemma empty_keyword_unknown_field_counterexample :
  dict_get "" (keyword_rules Sample.empty_keyword_unknown_field)
    = Some (mkKeywordRule "Misc" "body_only")
  /\ Classifier.sender_pass Sample.empty_keyword_unknown_field (Py.lower "b@x.com")
     = None
  /\ Classifier.classify Sample.empty_keyword_unknown_field "b@x.com" "Hello" "world"
     = None.
Proof.
  repeat split.
Qed.

(** ** The address cache *)

Section CacheFacts.
Import Cache.

Lemma save_keeps_cache fault s :
  smtp_cache (save_smtp_cache fault s) = smtp_cache s.
Proof. destruct fault; reflexivity. Qed.

Lemma save_keeps_interval fault s :
  cache_save_interval (save_smtp_cache fault s) = cache_save_interval s.
Proof. destruct fault; reflexivity. Qed.

Lemma save_counts fault s :
  save_calls (save_smtp_cache fault s) = S (save_calls s).
Proof. destruct fault; reflexivity. Qed.

Lemma save_failed_counter fault s :
  fault <> Healthy ->
  items_since_last_save (save_smtp_cache fault s) = items_since_last_save s.
Proof. destruct fault; [congruence | reflexivity ..]. Qed.

Lemma save_healthy s :
  db_file (save_smtp_cache Healthy s) = Table (smtp_cache s)
  /\ items_since_last_save (save_smtp_cache Healthy s) = 0%Z.
Proof. split; reflexivity. Qed.

(** A call that is not a new resolution changes nothing. *)
Lemma not_new_keeps_state fault item s :
  new_resolution item s = false -> snd (get_smtp_address fault item s) = s.
Proof.
  unfold new_resolution, get_smtp_address, dict_mem.
  destruct (Sender item) as [sender_obj|]; [|reflexivity].
  destruct (AddressEntryUserType sender_obj =? 0)%Z; [|reflexivity].
  destruct (dict_get (Py.lower (Address sender_obj)) (smtp_cache s));
    [reflexivity|].
  destruct (GetExchangeUser sender_obj); simpl; [discriminate | reflexivity ..].
Qed.

(** What a new resolution does. *)
Lemma new_resolution_step fault item s :
  new_resolution item s = true ->
  exists sender_obj smtp,
    Sender item = Some sender_obj
    /\ GetExchangeUser sender_obj = User smtp
    /\ dict_get (Py.lower (Address sender_obj)) (smtp_cache s) = None
    /\ let s2 := set_items_since_last_save (items_since_last_save s + 1)
                   (set_smtp_cache
                      (dict_set (Py.lower (Address sender_obj)) smtp (smtp_cache s)) s) in
       get_smtp_address fault item s =
         (Some smtp,
          if (cache_save_interval s <=? items_since_last_save s + 1)%Z
          then save_smtp_cache fault s2 else s2).
Proof.
  unfold new_resolution, get_smtp_address, dict_mem.
  destruct (Sender item) as [sender_obj|]; [|discriminate].
  destruct (AddressEntryUserType sender_obj =? 0)%Z; [|discriminate].
  destruct (dict_get (Py.lower (Address sender_obj)) (smtp_cache s)) eqn:E;
    [discriminate|].
  destruct (GetExchangeUser sender_obj) as [smtp| |] eqn:G; simpl;
    try discriminate.
  intros _. exists sender_obj, smtp. repeat split; assumption.
Qed.

Lemma step_keeps_interval fault item s :
  cache_save_interval (snd (get_smtp_address fault item s)) = cache_save_interval s.
Proof.
  destruct (new_resolution item s) eqn:N.
  - destruct (new_resolution_step fault item s N) as (so & smtp & _ & _ & _ & ->).
    simpl. destruct (_ <=? _)%Z; [now rewrite save_keeps_interval | reflexivity].
  - now rewrite not_new_keeps_state.
Qed.

(** Below the interval a new resolution only counts. *)
Lemma new_below_interval fault item s :
  new_resolution item s = true ->
  (items_since_last_save s + 1 < cache_save_interval s)%Z ->
  let s' := snd (get_smtp_address fault item s) in
  save_calls s' = save_calls s /\ db_file s' = db_file s
  /\ items_since_last_save s' = (items_since_last_save s + 1)%Z.
Proof.
  intros N Hlt.
  destruct (new_resolution_step fault item s N) as (so & smtp & _ & _ & _ & ->).
  simpl. destruct (Z.leb_spec (cache_save_interval s) (items_since_last_save s + 1));
    [lia|]. repeat split.
Qed.

(** At or above the interval a new resolution enters [save_smtp_cache]. *)
Lemma new_at_interval fault item s :
  new_resolution item s = true ->
  (cache_save_interval s <= items_since_last_save s + 1)%Z ->
  exists s2,
    snd (get_smtp_address fault item s) = save_smtp_cache fault s2
    /\ save_calls s2 = save_calls s
    /\ items_since_last_save s2 = (items_since_last_save s + 1)%Z
    /\ cache_save_interval s2 = cache_save_interval s
    /\ exists sender_obj smtp,
        Sender item = Some sender_obj
        /\ GetExchangeUser sender_obj = User smtp
        /\ smtp_cache s2 =
           dict_set (Py.lower (Address sender_obj)) smtp (smtp_cache s).
Proof.
  intros N Hle.
  destruct (new_resolution_step fault item s N) as (so & smtp & HS & HG & _ & ->).
  simpl. destruct (Z.leb_spec (cache_save_interval s) (items_since_last_save s + 1));
    [|lia].
  eexists. split; [reflexivity|]. repeat split.
  exists so, smtp. repeat split; assumption.
Qed.

(** While fewer new resolutions than the interval have been counted, no
    flush happens. *)
Lemma run_below_interval calls s :
  (items_since_last_save s + Z.of_nat (new_resolutions calls s)
   < cache_save_interval s)%Z ->
  save_calls (run calls s) = save_calls s
  /\ db_file (run calls s) = db_file s
  /\ items_since_last_save (run calls s)
     = (items_since_last_save s + Z.of_nat (new_resolutions calls s))%Z
  /\ cache_save_interval (run calls s) = cache_save_interval s.
Proof.
  revert s; induction calls as [|[fault item] rest IH]; intros s H; simpl in *.
  - repeat split. lia.
  - destruct (new_resolution item s) eqn:N.
    + destruct (@new_below_interval fault item s N) as (H1 & H2 & H3); [lia|].
      destruct (IH (snd (get_smtp_address fault item s))) as (I1 & I2 & I3 & I4).
      { rewrite H3, step_keeps_interval. lia. }
      rewrite I1, I2, I3, I4, H1, H2, H3, step_keeps_interval.
      repeat split. lia.
    + rewrite (not_new_keeps_state fault item s N) in *.
      destruct (IH s) as (I1 & I2 & I3 & I4); [lia|].
      rewrite I1, I2, I3, I4. repeat split.
Qed.

Lemma new_resolutions_app before after s :
  new_resolutions (before ++ after) s
  = (new_resolutions before s + new_resolutions after (run before s))%nat.
Proof.
  revert s; induction before as [|[fault item] rest IH]; intros s; simpl.
  - reflexivity.
  - rewrite IH. lia.
Qed.

Lemma run_app before after s :
  run (before ++ after) s = run after (run before s).
Proof.
  revert s; induction before as [|[fault item] rest IH]; intros s; simpl;
    [reflexivity | apply IH].
Qed.

End CacheFacts.

(** C4 (amended).  Start with an empty pending counter and an interval of at
    least 1.  During a run that holds [interval - 1] new resolutions no
    flush is entered and the SQLite file is not written, and the next new
    resolution enters exactly one flush (which, when the file system is
    healthy, stores the cache and resets the counter).  A cache hit returns
    the cached address and leaves the whole state as it was.  A call that
    starts below the interval and enters no flush ends below the
    interval. *)
Theorem auto_flush_at_interval :
  forall s calls fault item,
    items_since_last_save s = 0%Z ->
    (1 <= cache_save_interval s)%Z ->
    Z.of_nat (Cache.new_resolutions calls s) = (cache_save_interval s - 1)%Z ->
    Cache.new_resolution item (Cache.run calls s) = true ->
    (forall before after,
        calls = (before ++ after)%list ->
        save_calls (Cache.run before s) = save_calls s
        /\ db_file (Cache.run before s) = db_file s)
    /\ save_calls (Cache.run (calls ++ [(fault, item)])%list s) = S (save_calls s)
    /\ (fault = Healthy ->
        items_since_last_save (Cache.run (calls ++ [(fault, item)])%list s) = 0%Z
        /\ db_file (Cache.run (calls ++ [(fault, item)])%list s)
           = Table (smtp_cache (Cache.run (calls ++ [(fault, item)])%list s)))
    /\ (forall f it sender_obj cached s0,
           Sender it = Some sender_obj ->
           AddressEntryUserType sender_obj = 0%Z ->
           dict_get (Py.lower (Address sender_obj)) (smtp_cache s0) = Some cached ->
           Cache.get_smtp_address f it s0 = (Some cached, s0))
    /\ (forall f it s0,
           (items_since_last_save s0 < cache_save_interval s0)%Z ->
           save_calls (snd (Cache.get_smtp_address f it s0)) = save_calls s0 ->
           (items_since_last_save (snd (Cache.get_smtp_address f it s0))
            < cache_save_interval (snd (Cache.get_smtp_address f it s0)))%Z).
Proof.
  intros s calls fault item Hzero Hpos Hcount Hnew.
  destruct (@run_below_interval calls s) as (R1 & R2 & R3 & R4); [lia|].
  split; [|split; [|split; [|split]]].
  - intros before after ->.
    rewrite new_resolutions_app in Hcount.
    destruct (@run_below_interval before s) as (B1 & B2 & _); [lia|].
    now split.
  - rewrite run_app. simpl.
    destruct (@new_at_interval fault item (Cache.run calls s) Hnew)
      as (s2 & -> & S1 & _); [lia|].
    rewrite save_counts, S1, R1. reflexivity.
  - intros ->. rewrite run_app. simpl.
    destruct (@new_at_interval Healthy item (Cache.run calls s) Hnew)
      as (s2 & -> & _); [lia|].
    split; reflexivity.
  - intros f it sender_obj cached s0 HS HT HG.
    unfold Cache.get_smtp_address. rewrite HS, HT, HG. reflexivity.
  - intros f it s0 Hlt Hsame.
    rewrite step_keeps_interval.
    destruct (Cache.new_resolution it s0) eqn:N.
    + destruct (Z.le_gt_cases (cache_save_interval s0) (items_since_last_save s0 + 1))
        as [Hle|Hgt].
      * destruct (@new_at_interval f it s0 N Hle) as (s2 & E & S1 & _).
        rewrite E, save_counts, S1 in Hsame. lia.
      * destruct (@new_below_interval f it s0 N) as (_ & _ & ->); lia.
    + now rewrite not_new_keeps_state.
Qed.

Lemma auto_flush_at_interval_witness :
  save_calls (Cache.run [(Healthy, Sample.alice); (Healthy, Sample.alice);
                         (Healthy, Sample.bob)]
                        (init (Some 3%Z) Missing)) = 0%nat
  /\ save_calls (Cache.run [(Healthy, Sample.alice); (Healthy, Sample.alice);
                            (Healthy, Sample.bob); (Healthy, Sample.carol)]
                           (init (Some 3%Z) Missing)) = 1%nat.
Proof.
  destruct (@auto_flush_at_interval (init (Some 3%Z) Missing)
              [(Healthy, Sample.alice); (Healthy, Sample.alice);
               (Healthy, Sample.bob)]
              Healthy Sample.carol) as (H1 & H2 & _).
  - reflexivity.
  - simpl. lia.
  - reflexivity.
  - reflexivity.
  - split; [|exact H2].
    apply (H1 [(Healthy, Sample.alice); (Healthy, Sample.alice);
               (Healthy, Sample.bob)] []).
    reflexivity.
Defined.

(** C4 as stated fails in its last sentence: after a flush whose write
    failed, a cache hit enters no flush and leaves the pending counter at
    the interval. *)
Lemma counter_below_interval_counterexample :
  save_calls (snd (Cache.get_smtp_address Healthy Sample.alice
                                          Sample.after_failed_flush))
    = save_calls Sample.after_failed_flush
  /\ items_since_last_save (snd (Cache.get_smtp_address Healthy Sample.alice
                                                        Sample.after_failed_flush))
     = 1%Z
  /\ cache_save_interval (snd (Cache.get_smtp_address Healthy Sample.alice
                                                      Sample.after_failed_flush))
     = 1%Z
  /\ ~ (items_since_last_save (snd (Cache.get_smtp_address Healthy Sample.alice
                                                           Sample.after_failed_flush))
        < cache_save_interval (snd (Cache.get_smtp_address Healthy Sample.alice
                                                           Sample.after_failed_flush)))%Z.
Proof.
  split; [reflexivity|]. split; [reflexivity|]. split; [reflexivity|].
  vm_compute. discriminate.
Qed.

(** C9.  A flush whose write fails leaves the cache as it is and does not
    reset the pending counter.  When this happens to the flush that a new
    resolution has triggered, the cache keeps the new entry, and every later
    new resolution enters a flush again, one per resolution, for as long as
    the writes fail; the first healthy flush stores the cache and resets the
    counter. *)
Theorem failed_flush_retries_on_next_miss :
  forall s fault item retries fault' item',
    fault <> Healthy ->
    Cache.new_resolution item s = true ->
    (cache_save_interval s <= items_since_last_save s + 1)%Z ->
    Forall (fun c => fst c <> Healthy) retries ->
    Cache.all_new_resolutions
      (retries ++ [(fault', item')])%list
      (snd (Cache.get_smtp_address fault item s)) = true ->
    let s1 := snd (Cache.get_smtp_address fault item s) in
    let s2 := Cache.run retries s1 in
    let s3 := snd (Cache.get_smtp_address fault' item' s2) in
    (forall s0,
        smtp_cache (Cache.save_smtp_cache fault s0) = smtp_cache s0
        /\ items_since_last_save (Cache.save_smtp_cache fault s0)
           = items_since_last_save s0)
    /\ save_calls s1 = S (save_calls s)
    /\ (exists sender_obj smtp,
           Sender item = Some sender_obj
           /\ GetExchangeUser sender_obj = User smtp
           /\ smtp_cache s1 =
              dict_set (Py.lower (Address sender_obj)) smtp (smtp_cache s))
    /\ items_since_last_save s1 = (items_since_last_save s + 1)%Z
    /\ save_calls s2 = (save_calls s1 + List.length retries)%nat
    /\ items_since_last_save s2
       = (items_since_last_save s1 + Z.of_nat (List.length retries))%Z
    /\ save_calls s3 = S (save_calls s2)
    /\ (fault' = Healthy ->
        items_since_last_save s3 = 0%Z /\ db_file s3 = Table (smtp_cache s3)).
Proof.
  intros s fault item retries fault' item' Hfault Hnew Hle Hretries Hall s1 s2 s3.
  destruct (@new_at_interval fault item s Hnew Hle)
    as (s0 & E & S1 & C1 & I1 & sender_obj & smtp & HS & HG & HC).
  assert (Hs1 : save_calls s1 = S (save_calls s)
                /\ items_since_last_save s1 = (items_since_last_save s + 1)%Z
                /\ cache_save_interval s1 = cache_save_interval s).
  { unfold s1. rewrite E, save_counts, save_keeps_interval,
      save_failed_counter by assumption. repeat split; congruence. }
  destruct Hs1 as (A1 & A2 & A3).
  assert (Hrun : forall l t,
             Forall (fun c => fst c <> Healthy) l ->
             (cache_save_interval t <= items_since_last_save t)%Z ->
             Cache.all_new_resolutions (l ++ [(fault', item')])%list t = true ->
             save_calls (Cache.run l t) = (save_calls t + List.length l)%nat
             /\ items_since_last_save (Cache.run l t)
                = (items_since_last_save t + Z.of_nat (List.length l))%Z
             /\ cache_save_interval (Cache.run l t) = cache_save_interval t
             /\ Cache.new_resolution item' (Cache.run l t) = true).
  { induction l as [|[f it] l IH]; intros t Hl Ht Hn; simpl in *.
    - rewrite andb_true_r in Hn. repeat split; [lia | lia | exact Hn].
    - apply andb_true_iff in Hn. destruct Hn as [N Hn].
      inversion Hl as [|? ? Hf Hl']; subst. simpl in Hf.
      destruct (@new_at_interval f it t N) as (t2 & Et & T1 & T2 & T3 & _); [lia|].
      rewrite Et in *.
      destruct (IH (Cache.save_smtp_cache f t2) Hl') as (J1 & J2 & J3 & J4).
      + rewrite save_keeps_interval, save_failed_counter by assumption. lia.
      + exact Hn.
      + rewrite J1, J2, J3, save_counts, save_keeps_interval,
          save_failed_counter by assumption.
        repeat split; [lia | lia | congruence | exact J4]. }
  destruct (Hrun retries s1 Hretries) as (R1 & R2 & R3 & R4); [lia | exact Hall|].
  fold s2 in R1, R2, R3, R4.
  destruct (@new_at_interval fault' item' s2 R4) as (t2 & Et & T1 & _); [lia|].
  split.
  { intros t. split; [apply save_keeps_cache | now apply save_failed_counter]. }
  split; [exact A1|]. split.
  { exists sender_obj, smtp. repeat split; try assumption.
    unfold s1. now rewrite E, save_keeps_cache. }
  split; [exact A2|]. split; [exact R1|]. split; [exact R2|]. split.
  - unfold s3. now rewrite Et, save_counts, T1.
  - intros ->. unfold s3. rewrite Et. split; reflexivity.
Qed.

Lemma failed_flush_retries_on_next_miss_witness :
  save_calls Sample.after_failed_flush = 1%nat
  /\ items_since_last_save Sample.after_failed_flush = 1%Z
  /\ save_calls (Cache.run [(ConnectFails, Sample.bob)] Sample.after_failed_flush)
     = 2%nat
  /\ items_since_last_save
       (Cache.run [(ConnectFails, Sample.bob)] Sample.after_failed_flush) = 2%Z
  /\ save_calls
       (snd (Cache.get_smtp_address Healthy Sample.carol
               (Cache.run [(ConnectFails, Sample.bob)] Sample.after_failed_flush)))
     = 3%nat
  /\ items_since_last_save
       (snd (Cache.get_smtp_address Healthy Sample.carol
               (Cache.run [(ConnectFails, Sample.bob)] Sample.after_failed_flush)))
     = 0%Z.
Proof.
  destruct (@failed_flush_retries_on_next_miss Sample.eager
              WriteFails Sample.alice [(ConnectFails, Sample.bob)]
              Healthy Sample.carol)
    as (_ & H1 & _ & H3 & H4 & H5 & H6 & H7).
  - discriminate.
  - reflexivity.
  - simpl. lia.
  - repeat constructor. discriminate.
  - reflexivity.
  - destruct (H7 eq_refl) as [H8 _].
    split; [exact H1|]. split; [exact H3|]. split; [exact H4|].
    split; [exact H5|]. split; [exact H6 | exact H8].
Defined.

Section StoreFacts.
Import Cache.

(** In a dictionary the rows under a key are the one row [dict_get] finds. *)
Lemma rows_of_key (d : dict string) k v :
  dict_wf d -> dict_get k d = Some v ->
  filter (fun r => String.eqb (fst r) k) d = [(k, v)].
Proof.
  unfold dict_wf. induction d as [|[k0 v0] r IH]; simpl; [discriminate|].
  intros Hwf Hget. inversion Hwf as [|? ? Hnotin Hwf']; subst.
  rewrite (String.eqb_sym k0 k).
  destruct (String.eqb_spec k k0) as [->|Hne].
  - injection Hget as ->. f_equal.
    clear IH Hwf Hwf'. induction r as [|[k1 v1] r IH]; simpl; [reflexivity|].
    destruct (String.eqb_spec k1 k0) as [->|Hne].
    + exfalso. apply Hnotin. now left.
    + apply IH. intros H. apply Hnotin. now right.
  - now apply IH.
Qed.

(** A call whose resolver fails on a missing address changes nothing. *)
Lemma failed_lookup_keeps_state fault item ex_addr s :
  resolver_fails item ex_addr ->
  get_smtp_address fault item s
  = (match dict_get ex_addr (smtp_cache s) with
     | Some cached => Some cached
     | None => match Sender item with
               | Some sender_obj =>
                   match GetExchangeUser sender_obj with
                   | NoUser => Some (SenderEmailAddress item)
                   | _ => None
                   end
               | None => None
               end
     end, s).
Proof.
  intros (sender_obj & HS & HT & HA & HG). unfold get_smtp_address.
  rewrite HS, HT, HA. simpl.
  destruct (dict_get ex_addr (smtp_cache s)); [reflexivity|].
  destruct HG as [-> | ->]; reflexivity.
Qed.

Lemma failed_lookups_keep_state failures ex_addr s :
  Forall (fun c => resolver_fails (snd c) ex_addr) failures ->
  run failures s = s.
Proof.
  induction 1 as [|[fault item] rest H _ IH]; simpl in *; [reflexivity|].
  now rewrite (failed_lookup_keeps_state fault s H).
Qed.

Lemma rows_to_cache_lower rows :
  normalised (rows_to_cache rows).
Proof.
  unfold normalised, rows_to_cache. apply Forall_forall. intros k Hk.
  apply keys_of_items_incl in Hk. rewrite map_map in Hk. simpl in Hk.
  apply in_map_iff in Hk. destruct Hk as (r & <- & _). apply lower_idem.
Qed.

Lemma map_lower_normalised (d : dict string) :
  normalised d -> map (fun r => (Py.lower (fst r), snd r)) d = d.
Proof.
  unfold normalised, keys. induction d as [|[k v] r IH]; simpl; [reflexivity|].
  intros H. inversion H as [|? ? Hk Hr]; subst. simpl in Hk.
  now rewrite Hk, IH.
Qed.

End StoreFacts.

(** C6.  A lookup that returns nothing or raises leaves the cache, the
    counter and the SQLite file as they were; after any number of such
    lookups for an address that is not cached, one lookup that succeeds
    and a flush, the table holds exactly one row for that address, with the
    address that lookup gave. *)
Theorem resolver_failure_is_not_cached :
  forall s ex_addr failures fault item smtp,
    dict_wf (smtp_cache s) ->
    dict_get ex_addr (smtp_cache s) = None ->
    Forall (fun c => resolver_fails (snd c) ex_addr) failures ->
    resolver_gives item ex_addr smtp ->
    Cache.run failures s = s
    /\ rows_for ex_addr
         (db_file (Cache.save_smtp_cache Healthy
                     (snd (Cache.get_smtp_address fault item
                                                  (Cache.run failures s)))))
       = [(ex_addr, smtp)].
Proof.
  intros s ex_addr failures fault item smtp Hwf Hmiss Hfail
         (sender_obj & HS & HT & HA & HG).
  rewrite (failed_lookups_keep_state s Hfail). split; [reflexivity|].
  destruct (save_healthy (snd (Cache.get_smtp_address fault item s))) as [-> _].
  assert (N : Cache.new_resolution item s = true).
  { unfold Cache.new_resolution, dict_mem. now rewrite HS, HT, HA, Hmiss, HG. }
  destruct (new_resolution_step fault item s N) as (so & smtp' & HS' & HG' & _ & E).
  rewrite HS in HS'. injection HS' as <-. rewrite HG in HG'. injection HG' as <-.
  rewrite HA in E. cbv zeta in E. rewrite E. simpl.
  assert (C : smtp_cache
                (if (cache_save_interval s <=? items_since_last_save s + 1)%Z
                 then Cache.save_smtp_cache fault
                        (set_items_since_last_save (items_since_last_save s + 1)
                           (set_smtp_cache (dict_set ex_addr smtp (smtp_cache s)) s))
                 else set_items_since_last_save (items_since_last_save s + 1)
                        (set_smtp_cache (dict_set ex_addr smtp (smtp_cache s)) s))
              = dict_set ex_addr smtp (smtp_cache s)).
  { destruct (_ <=? _)%Z; [now rewrite save_keeps_cache | reflexivity]. }
  rewrite C. apply rows_of_key.
  - now apply dict_wf_set.
  - rewrite dict_get_set. now rewrite String.eqb_refl.
Qed.

Lemma resolver_failure_is_not_cached_witness :
  Cache.run [(Healthy, Sample.alice_unresolved);
             (Healthy, Sample.alice_lookup_error);
             (WriteFails, Sample.alice_unresolved)] Sample.two_entries_bob
    = Sample.two_entries_bob
  /\ rows_for "/o=org/cn=alice"
       (db_file (Cache.save_smtp_cache Healthy
                   (snd (Cache.get_smtp_address Healthy Sample.alice
                           (Cache.run [(Healthy, Sample.alice_unresolved);
                                       (Healthy, Sample.alice_lookup_error);
                                       (WriteFails, Sample.alice_unresolved)]
                                      Sample.two_entries_bob)))))
     = [("/o=org/cn=alice", "alice@x.com")].
Proof.
  apply (@resolver_failure_is_not_cached Sample.two_entries_bob "/o=org/cn=alice"
           [(Healthy, Sample.alice_unresolved);
            (Healthy, Sample.alice_lookup_error);
            (WriteFails, Sample.alice_unresolved)]
           Healthy Sample.alice "alice@x.com").
  - vm_compute. repeat constructor; simpl; intuition discriminate.
  - reflexivity.
  - repeat constructor; eexists; (repeat split; [reflexivity .. | ]);
      simpl; auto.
  - eexists. repeat split; reflexivity.
Defined.

(** C7.  After a flush that succeeded, loading (in the same sorter or in a
    new one that opens the same file) gives the flushed map with its keys
    in lower case: each lower-case key holds the value of the last flushed
    entry that has this key up to case, and no other key is present.  On a
    map whose keys are in lower case, as every map built by
    [get_smtp_address] and [load_cache_from_db] is, the loaded map is the
    flushed map itself. *)
Theorem load_after_flush_round_trip :
  forall s s',
    db_file s' = db_file (Cache.save_smtp_cache Healthy s) ->
    (forall k,
        dict_get k (smtp_cache (Cache.load_cache_from_db s'))
        = dict_get k (rev (map (fun r => (Py.lower (fst r), snd r)) (smtp_cache s))))
    /\ dict_wf (smtp_cache (Cache.load_cache_from_db s'))
    /\ normalised (smtp_cache (Cache.load_cache_from_db s'))
    /\ (dict_wf (smtp_cache s) -> normalised (smtp_cache s) ->
        smtp_cache (Cache.load_cache_from_db s') = smtp_cache s).
Proof.
  intros s s' Hdb. destruct (save_healthy s) as [Hfile _].
  rewrite Hfile in Hdb. unfold Cache.load_cache_from_db. rewrite Hdb. simpl.
  split; [|split; [|split]].
  - intros k. apply dict_get_of_items.
  - apply dict_wf_of_items.
  - apply rows_to_cache_lower.
  - intros Hwf Hnorm. unfold Cache.rows_to_cache.
    rewrite map_lower_normalised by assumption. now apply dict_of_items_wf.
Qed.

Lemma load_after_flush_round_trip_witness :
  db_file (init None (db_file (Cache.save_smtp_cache Healthy Sample.two_entries)))
    = db_file (Cache.save_smtp_cache Healthy Sample.two_entries)
  /\ smtp_cache
       (Cache.load_cache_from_db
          (init None (db_file (Cache.save_smtp_cache Healthy Sample.two_entries))))
     = [("/o=org/cn=alice", "alice@x.com"); ("/o=org/cn=bob", "bob@x.com")].
Proof.
  split; [reflexivity|].
  destruct (@load_after_flush_round_trip Sample.two_entries
              (init None (db_file (Cache.save_smtp_cache Healthy Sample.two_entries))))
    as (_ & _ & _ & H).
  - reflexivity.
  - rewrite H.
    + reflexivity.
    + vm_compute. repeat constructor; simpl; intuition discriminate.
    + vm_compute. repeat constructor.
Defined.

(** A legacy table with keys in mixed case: the keys are folded and the last
    row of each key wins. *)
Example load_legacy_rows :
  smtp_cache (Cache.load_cache_from_db (init None (Table Sample.legacy_rows)))
  = [("/o=org/cn=alice", "alice@x.com"); ("/o=org/cn=bob", "bob@x.com")].
Proof. reflexivity. Qed.

(** ** Loading the rules *)

Section LoaderFacts.
Import Loader.

Lemma unique_incl cs x : In x (unique cs) -> In x cs.
Proof.
  induction cs as [|c r IH]; simpl; [tauto|].
  intros [H|H]; [now left | right].
  apply filter_In in H. now apply IH.
Qed.




Lemma loadable_texts pre :
  Forall loadable pre ->
  Forall (fun x => exists a, x = Text a) (unique (dropna pre)).
Proof.
  intros H. apply Forall_forall. intros x Hx.
  apply unique_incl in Hx. apply filter_In in Hx. destruct Hx as [Hin Hna].
  rewrite Forall_forall in H. specialize (H x Hin).
  destruct x; simpl in *; [discriminate | now eexists | contradiction].
Qed.

End LoaderFacts.




(** ** Actions on the mail client *)

Section ActionFacts.
Import Outlook Actions.
Local Open Scope list_scope.

Lemma path_eqb_refl p : path_eqb p p = true.
Proof. unfold path_eqb. now destruct (list_eq_dec string_dec p p). Qed.

Lemma exists_folder_added p mb l r c :
  exists_folder p (mkMailbox (folders mb ++ [p]) l r c) = true.
Proof.
  unfold exists_folder. simpl. rewrite existsb_app. simpl.
  now rewrite path_eqb_refl, orb_true_r.
Qed.

Lemma exists_folder_record p c mb :
  exists_folder p (record_call c mb) = exists_folder p mb.
Proof. reflexivity. Qed.

(** [Folders.Item] records its call and changes nothing else. *)
Lemma Folders_Item_frame parent part mb :
  snd (Folders_Item parent part mb) = record_call (FoldersItem parent part) mb
  /\ match fst (Folders_Item parent part mb) with
     | Ok node => node = child parent part
                  /\ exists_folder node mb = true
     | Raise _ => True
     end.
Proof.
  unfold Folders_Item, bind, invoke.
  destruct (refuses mb (calls mb) (FoldersItem parent part)); simpl.
  - split; [reflexivity | exact I].
  - rewrite exists_folder_record.
    destruct (exists_folder (child parent part) mb) eqn:E; simpl.
    + repeat split. exact E.
    + split; [reflexivity | exact I].
Qed.

(** [Folders.Add] records its call; it creates the folder or raises. *)
Lemma Folders_Add_frame parent part mb :
  let r := Folders_Add parent part mb in
  location (snd r) = location mb
  /\ refuses (snd r) = refuses mb
  /\ calls (snd r) = calls mb ++ [FoldersAdd parent part]
  /\ match fst r with
     | Ok node => node = child parent part /\ exists_folder node (snd r) = true
     | Raise _ => True
     end.
Proof.
  unfold Folders_Add, bind, invoke.
  destruct (refuses mb (calls mb) (FoldersAdd parent part)); simpl.
  - repeat split.
  - rewrite !exists_folder_record.
    destruct (exists_folder (child parent part) mb); simpl.
    + repeat split.
    + repeat split. apply exists_folder_added.
Qed.

(** The walk touches only the folder tree: the item stays where it is, and
    a walk that raises has raised at [Folders.Add]. *)
Lemma walk_frame parts :
  forall current_node mb,
    let r := walk current_node parts mb in
    location (snd r) = location mb
    /\ refuses (snd r) = refuses mb
    /\ exists cs,
        calls (snd r) = calls mb ++ cs
        /\ Forall folder_call cs
        /\ match fst r with
           | Ok node => node = current_node ++ parts
           | Raise _ => exists h p n, cs = h ++ [FoldersAdd p n]
           end.
Proof.
  induction parts as [|part rest IH]; intros current_node mb; simpl.
  - repeat split. exists []. rewrite !app_nil_r. repeat split. constructor.
  - destruct (Folders_Item_frame current_node part mb) as [Hmb Hres].
    destruct (Folders_Item current_node part mb) as [[node|e] mb1];
      simpl in Hmb, Hres; subst mb1.
    + destruct Hres as [-> _].
      destruct (IH (child current_node part)
                   (record_call (FoldersItem current_node part) mb))
        as (L & R & cs & C & F & Hr).
      split; [exact L|]. split; [exact R|].
      exists (FoldersItem current_node part :: cs). split; [|split].
      * rewrite C. simpl. now rewrite <- app_assoc.
      * constructor; [exact I | exact F].
      * destruct (fst (walk _ rest _)).
        -- rewrite Hr. unfold child. now rewrite <- app_assoc.
        -- destruct Hr as (h & p & n & ->).
           now exists (FoldersItem current_node part :: h), p, n.
    + unfold bind.
      destruct (Folders_Add_frame current_node part
                  (record_call (FoldersItem current_node part) mb))
        as (L1 & R1 & C1 & Hadd).
      destruct (Folders_Add current_node part _) as [[node|e'] mb2];
        simpl in L1, R1, C1, Hadd.
      * destruct Hadd as [-> _].
        destruct (IH (child current_node part) mb2) as (L & R & cs & C & F & Hr).
        split; [now rewrite L, L1|]. split; [now rewrite R, R1|].
        exists (FoldersItem current_node part :: FoldersAdd current_node part :: cs).
        split; [|split].
        -- rewrite C, C1. simpl. now rewrite <- !app_assoc.
        -- repeat constructor. exact F.
        -- destruct (fst (walk _ rest _)).
           ++ rewrite Hr. unfold child. now rewrite <- app_assoc.
           ++ destruct Hr as (h & p & n & ->).
              now exists (FoldersItem current_node part
                            :: FoldersAdd current_node part :: h), p, n.
      * simpl. split; [exact L1|]. split; [exact R1|].
        exists [FoldersItem current_node part; FoldersAdd current_node part].
        split; [|split].
        -- rewrite C1. simpl. now rewrite <- app_assoc.
        -- repeat constructor.
        -- now exists [FoldersItem current_node part], current_node, part.
Qed.

(** With a client that accepts every call the walk ends in the folder the
    path names, and that folder exists. *)
Lemma walk_accepted parts :
  forall current_node mb,
    (forall history c, refuses mb history c = false) ->
    fst (walk current_node parts mb) = Ok (current_node ++ parts)
    /\ (parts <> [] ->
        exists_folder (current_node ++ parts)
                      (snd (walk current_node parts mb)) = true).
Proof.
  induction parts as [|part rest IH]; intros current_node mb Hacc; simpl.
  - rewrite app_nil_r. split; [reflexivity | congruence].
  - assert (Hnext : forall mb1,
               refuses mb1 = refuses mb ->
               exists_folder (child current_node part) mb1 = true ->
               fst (walk (child current_node part) rest mb1)
               = Ok (current_node ++ part :: rest)
               /\ (part :: rest <> [] ->
                   exists_folder (current_node ++ part :: rest)
                                 (snd (walk (child current_node part) rest mb1))
                   = true)).
    { intros mb1 Hr Hex.
      destruct (IH (child current_node part) mb1) as [W1 W2].
      { intros history c. rewrite Hr. apply Hacc. }
      unfold child in *. rewrite <- app_assoc in W1, W2. simpl in W1, W2.
      split; [exact W1|]. intros _.
      destruct rest as [|part' rest'].
      - simpl. exact Hex.
      - apply W2. discriminate. }
    unfold Folders_Item, bind, invoke. rewrite Hacc.
    rewrite exists_folder_record.
    destruct (exists_folder (child current_node part) mb) eqn:E.
    + apply Hnext; [reflexivity | exact E].
    + unfold Folders_Add, bind, invoke.
      change (refuses (record_call (FoldersItem current_node part) mb))
        with (refuses mb).
      rewrite Hacc, !exists_folder_record, E.
      apply Hnext; [reflexivity | apply exists_folder_added].
Qed.

End ActionFacts.

Section ExecuteFacts.
Import Outlook Actions.
Local Open Scope list_scope.

(** The delete branch, call by call. *)
Lemma action_delete item inbox_folder trigger match_type mb :
  action item "ToDelete" inbox_folder trigger match_type mb =
    if refuses mb (calls mb) ItemDelete
    then (Raise (Exception "com_error"), record_call ItemDelete mb)
    else
      let mb1 := mkMailbox (folders mb) None (refuses mb) (calls mb ++ [ItemDelete]) in
      if refuses mb (calls mb ++ [ItemDelete]) ItemSubject
      then (Raise (Exception "com_error"), record_call ItemSubject mb1)
      else (Ok ("DELETED|" ++ trigger ++ "|" ++ match_type ++ "|" ++ Subject item)%string,
            record_call ItemSubject mb1).
Proof.
  unfold action, Item_Delete, Item_Subject, bind, invoke, ret. simpl.
  destruct (refuses mb (calls mb) ItemDelete); [reflexivity|]. simpl.
  destruct (refuses mb (calls mb ++ [ItemDelete]) ItemSubject); reflexivity.
Qed.

(** The move branch, call by call after the walk. *)
Lemma action_move item dest_name inbox_folder trigger match_type mb :
  dest_name <> "ToDelete" ->
  action item dest_name inbox_folder trigger match_type mb =
    match walk inbox_folder (Py.split backslash dest_name) mb with
    | (Raise e, mb1) => (Raise e, mb1)
    | (Ok dest_folder, mb1) =>
        if refuses mb1 (calls mb1) (ItemMove dest_folder)
        then (Raise (Exception "com_error"), record_call (ItemMove dest_folder) mb1)
        else
          let mb2 := mkMailbox (folders mb1) (Some dest_folder) (refuses mb1)
                               (calls mb1 ++ [ItemMove dest_folder]) in
          if refuses mb1 (calls mb1 ++ [ItemMove dest_folder]) ItemSubject
          then (Raise (Exception "com_error"), record_call ItemSubject mb2)
          else (Ok ("MOVED|" ++ dest_name ++ "|" ++ trigger ++ "|" ++ match_type
                             ++ "|" ++ Subject item)%string,
                record_call ItemSubject mb2)
    end.
Proof.
  intros Hne. unfold action.
  destruct (String.eqb_spec dest_name "ToDelete") as [E|_]; [contradiction|].
  unfold get_folder_recursive, Item_Move, Item_Subject, bind, invoke, ret.
  destruct (walk inbox_folder (Py.split backslash dest_name) mb) as [[f|e] mb1];
    [|reflexivity].
  destruct (refuses mb1 (calls mb1) (ItemMove f)); [reflexivity|]. simpl.
  destruct (refuses mb1 (calls mb1 ++ [ItemMove f]) ItemSubject); reflexivity.
Qed.

(** [process_email] hands the decision of the rule passes to
    [execute_action], and does nothing when there is none. *)
Lemma process_email_decision fault item inbox_folder s mb :
  refuses mb (calls mb) ItemSubject = false ->
  process_email fault item inbox_folder s mb =
    let s1 := snd (Cache.get_smtp_address fault item s) in
    let sender := match fst (Cache.get_smtp_address fault item s) with
                  | Some a => a
                  | None => ""%string
                  end in
    let mb1 := record_call ItemSubject mb in
    match Classifier.classify s1 sender (Subject item) (Body item) with
    | Some d =>
        execute_action item (Classifier.dest d) inbox_folder
                       (Classifier.trigger d) (Classifier.match_type d) s1 mb1
    | None => (false, s1, mb1)
    end.
Proof.
  intros Hread. unfold process_email, Item_Subject, bind, invoke, ret.
  rewrite Hread. now destruct (Cache.get_smtp_address fault item s).
Qed.

Lemma split_nonempty sep s : Py.split sep s <> [].
Proof.
  destruct s as [|c r]; simpl; [discriminate|].
  destruct (Ascii.eqb c sep); [discriminate|].
  destruct (Py.split sep r); discriminate.
Qed.

Lemma folder_call_not_delete cs : Forall folder_call cs -> ~ In ItemDelete cs.
Proof.
  intros F H. rewrite Forall_forall in F. exact (F _ H).
Qed.

End ExecuteFacts.

(** C2 (amended).  [execute_action] calls [item.Delete()] exactly when the
    destination is the string [ToDelete], and calls [item.Move] only for
    other destinations.  With a mail client that accepts every call it
    returns [True]; the item is then deleted when the destination is
    [ToDelete], and otherwise lies in the folder that the destination names
    below the inbox, which exists. *)
Theorem execute_action_delete_sentinel :
  forall item dest_name inbox_folder trigger match_type s mb,
    (exists cs,
        Outlook.calls
          (snd (Actions.execute_action item dest_name inbox_folder trigger
                                       match_type s mb))
        = (Outlook.calls mb ++ cs)%list
        /\ (In Outlook.ItemDelete cs <-> dest_name = "ToDelete")
        /\ (forall folder, In (Outlook.ItemMove folder) cs ->
                           dest_name <> "ToDelete"))
    /\ ((forall history c, Outlook.refuses mb history c = false) ->
        fst (fst (Actions.execute_action item dest_name inbox_folder trigger
                                         match_type s mb)) = true
        /\ (dest_name = "ToDelete" ->
            Outlook.location
              (snd (Actions.execute_action item dest_name inbox_folder trigger
                                           match_type s mb)) = None)
        /\ (dest_name <> "ToDelete" ->
            Outlook.location
              (snd (Actions.execute_action item dest_name inbox_folder trigger
                                           match_type s mb))
            = Some (inbox_folder ++ Py.split Actions.backslash dest_name)%list
            /\ Outlook.exists_folder
                 (inbox_folder ++ Py.split Actions.backslash dest_name)%list
                 (snd (Actions.execute_action item dest_name inbox_folder trigger
                                              match_type s mb))
               = true)).
Proof.
  intros item dest_name inbox_folder trigger match_type s mb.
  unfold Actions.execute_action.
  destruct (string_dec dest_name "ToDelete") as [->|Hne].
  - rewrite action_delete. split.
    + destruct (Outlook.refuses mb (Outlook.calls mb) Outlook.ItemDelete).
      * exists [Outlook.ItemDelete]. simpl. split; [reflexivity|].
        split; [tauto|]. intros folder [H|[]]. discriminate.
      * cbv zeta.
        destruct (Outlook.refuses mb (Outlook.calls mb ++ [Outlook.ItemDelete])%list
                                  Outlook.ItemSubject);
          (exists [Outlook.ItemDelete; Outlook.ItemSubject]; simpl;
           split; [now rewrite <- app_assoc|];
           split; [tauto|]; intros folder [H|[H|[]]]; discriminate).
    + intros Hacc. rewrite !Hacc. simpl.
      split; [reflexivity|]. split; [reflexivity|]. intros H. now destruct H.
  - rewrite (action_move item inbox_folder trigger match_type mb Hne).
    destruct (walk_frame (Py.split Actions.backslash dest_name) inbox_folder mb)
      as (L & R & cs & C & F & Hr).
    split.
    + destruct (Actions.walk inbox_folder (Py.split Actions.backslash dest_name) mb)
        as [[f|e] mb1]; simpl in L, R, C, Hr.
      * destruct (Outlook.refuses mb1 (Outlook.calls mb1) (Outlook.ItemMove f)).
        -- exists (cs ++ [Outlook.ItemMove f])%list. simpl.
           split; [now rewrite C, app_assoc|]. split.
           ++ split; [|contradiction]. intros H. apply in_app_or in H.
              destruct H as [H|[H|[]]]; [|discriminate].
              now apply folder_call_not_delete in H.
           ++ intros _ _. exact Hne.
        -- cbv zeta.
           destruct (Outlook.refuses mb1 (Outlook.calls mb1 ++ [Outlook.ItemMove f])%list
                                     Outlook.ItemSubject);
             (exists (cs ++ [Outlook.ItemMove f; Outlook.ItemSubject])%list; simpl;
              split; [rewrite C, <- !app_assoc; reflexivity|];
              split; [|intros _ _; exact Hne];
              split; [|contradiction]; intros H; apply in_app_or in H;
              destruct H as [H|[H|[H|[]]]]; try discriminate;
              now apply folder_call_not_delete in H).
      * exists cs. simpl. split; [exact C|]. split.
        -- split; [|contradiction]. intros H. now apply folder_call_not_delete in H.
        -- intros _ _. exact Hne.
    + intros Hacc.
      destruct (walk_accepted (Py.split Actions.backslash dest_name) inbox_folder
                              mb Hacc)
        as [W1 W2].
      specialize (W2 (split_nonempty _ _)).
      destruct (Actions.walk inbox_folder (Py.split Actions.backslash dest_name) mb)
        as [[f|e] mb1]; simpl in L, R, C, Hr, W1, W2; [|discriminate].
      injection W1 as ->. rewrite R, !Hacc. simpl.
      split; [reflexivity|]. split; [contradiction|]. intros _.
      split; [reflexivity | exact W2].
Qed.

Lemma execute_action_delete_sentinel_witness :
  fst (fst (Actions.execute_action Sample.alice "ToDelete" [] "a@x.com" "EmailMatch"
                                   Sample.rules Sample.accepts_all)) = true
  /\ Outlook.location
       (snd (Actions.execute_action Sample.alice "ToDelete" [] "a@x.com" "EmailMatch"
                                    Sample.rules Sample.accepts_all)) = None.
Proof.
  destruct (@execute_action_delete_sentinel Sample.alice "ToDelete" [] "a@x.com"
              "EmailMatch" Sample.rules Sample.accepts_all) as [_ H].
  destruct H as (H1 & H2 & _).
  - reflexivity.
  - split; [exact H1 | apply H2; reflexivity].
Defined.

(** C2 as stated fails: the destination [delete] is an ordinary folder
    name.  The item is not deleted; a folder of that name is created and
    the item is moved into it. *)
Lemma delete_is_a_folder_counterexample :
  fst (fst (Actions.execute_action Sample.alice "delete" [] "a@x.com" "EmailMatch"
                                   Sample.rules Sample.accepts_all)) = true
  /\ Outlook.location
       (snd (Actions.execute_action Sample.alice "delete" [] "a@x.com" "EmailMatch"
                                    Sample.rules Sample.accepts_all))
     = Some ["delete"]
  /\ Outlook.calls
       (snd (Actions.execute_action Sample.alice "delete" [] "a@x.com" "EmailMatch"
                                    Sample.rules Sample.accepts_all))
     = [Outlook.FoldersItem [] "delete"; Outlook.FoldersAdd [] "delete";
        Outlook.ItemMove ["delete"]; Outlook.ItemSubject].
Proof.
  repeat split.
Qed.

(** The only calls at which the [try] block of [execute_action] can raise
    are the creation of a folder, the move, the delete and the read of the
    subject. *)
Lemma action_raises_at :
  forall item dest_name inbox_folder trigger match_type mb e mb',
    Actions.action item dest_name inbox_folder trigger match_type mb
      = (Raise e, mb') ->
    exists history c,
      Outlook.calls mb' = (history ++ [c])%list
      /\ (Outlook.mutation c \/ c = Outlook.ItemSubject).
Proof.
  intros item dest_name inbox_folder trigger match_type mb e mb' Hact.
  destruct (string_dec dest_name "ToDelete") as [->|Hne].
  - rewrite action_delete in Hact.
    destruct (Outlook.refuses mb (Outlook.calls mb) Outlook.ItemDelete).
    + injection Hact as _ <-. eexists _, _. split; [reflexivity|]. now left.
    + cbv zeta in Hact.
      destruct (Outlook.refuses mb (Outlook.calls mb ++ [Outlook.ItemDelete])%list
                                Outlook.ItemSubject); [|discriminate].
      injection Hact as _ <-. eexists _, _. split; [reflexivity|]. now right.
  - rewrite (action_move item inbox_folder trigger match_type mb Hne) in Hact.
    destruct (walk_frame (Py.split Actions.backslash dest_name) inbox_folder mb)
      as (_ & _ & cs & C & _ & Hr).
    destruct (Actions.walk inbox_folder (Py.split Actions.backslash dest_name) mb)
      as [[f|e1] mb1]; simpl in C, Hr.
    + destruct (Outlook.refuses mb1 (Outlook.calls mb1) (Outlook.ItemMove f)).
      * injection Hact as _ <-. eexists _, _. split; [reflexivity|]. now left.
      * cbv zeta in Hact.
        destruct (Outlook.refuses mb1 (Outlook.calls mb1 ++ [Outlook.ItemMove f])%list
                                  Outlook.ItemSubject); [|discriminate].
        injection Hact as _ <-. eexists _, _. split; [reflexivity|]. now right.
    + injection Hact as _ <-. destruct Hr as (h & p & n & ->).
      rewrite C, app_assoc. eexists _, _. split; [reflexivity|]. now left.
Qed.

(** A last call that creates a folder, moves the item or deletes it is a
    call that failed: after a success the block goes on to another call. *)
Lemma mutation_last_is_failure :
  forall item dest_name inbox_folder trigger match_type mb history c,
    Outlook.calls
      (snd (Actions.action item dest_name inbox_folder trigger match_type mb))
    = (history ++ [c])%list ->
    Outlook.mutation c ->
    exists e,
      fst (Actions.action item dest_name inbox_folder trigger match_type mb)
      = Raise e.
Proof.
  intros item dest_name inbox_folder trigger match_type mb history c Hcalls Hc.
  destruct (string_dec dest_name "ToDelete") as [->|Hne].
  - rewrite action_delete in *.
    destruct (Outlook.refuses mb (Outlook.calls mb) Outlook.ItemDelete);
      [eexists; reflexivity|].
    cbv zeta in *.
    destruct (Outlook.refuses mb (Outlook.calls mb ++ [Outlook.ItemDelete])%list
                              Outlook.ItemSubject); [eexists; reflexivity|].
    simpl in Hcalls. apply app_inj_tail in Hcalls. destruct Hcalls as [_ <-].
    contradiction.
  - rewrite (action_move item inbox_folder trigger match_type mb Hne) in *.
    destruct (Actions.walk inbox_folder (Py.split Actions.backslash dest_name) mb)
      as [[f|e1] mb1]; [|eexists; reflexivity].
    destruct (Outlook.refuses mb1 (Outlook.calls mb1) (Outlook.ItemMove f));
      [eexists; reflexivity|].
    cbv zeta in *.
    destruct (Outlook.refuses mb1 (Outlook.calls mb1 ++ [Outlook.ItemMove f])%list
                              Outlook.ItemSubject); [eexists; reflexivity|].
    simpl in Hcalls. apply app_inj_tail in Hcalls. destruct Hcalls as [_ <-].
    contradiction.
Qed.

(** C8 (amended).  Whenever the [try] block of [execute_action] raises,
    [execute_action] returns [False], the invalid log gains exactly the
    line [ActionError|destination|error text] and the live log gains
    nothing; when the call that failed creates a folder, moves the item or
    deletes it, the item is where it was.  The function returns a value in
    every case: no error leaves it. *)
Theorem action_failure_leaves_message :
  forall item dest_name inbox_folder trigger match_type s mb e mb',
    Actions.action item dest_name inbox_folder trigger match_type mb
      = (Raise e, mb') ->
    fst (fst (Actions.execute_action item dest_name inbox_folder trigger
                                     match_type s mb)) = false
    /\ invalid_logger
         (snd (fst (Actions.execute_action item dest_name inbox_folder trigger
                                           match_type s mb)))
       = (invalid_logger s
          ++ [(ERROR, ("ActionError|" ++ dest_name ++ "|" ++ exn_str e)%string)])%list
    /\ live_logger
         (snd (fst (Actions.execute_action item dest_name inbox_folder trigger
                                           match_type s mb)))
       = live_logger s
    /\ snd (Actions.execute_action item dest_name inbox_folder trigger
                                   match_type s mb) = mb'
    /\ (forall history c,
           Outlook.calls mb' = (history ++ [c])%list ->
           Outlook.mutation c ->
           Outlook.location mb' = Outlook.location mb).
Proof.
  intros item dest_name inbox_folder trigger match_type s mb e mb' Hact.
  unfold Actions.execute_action. rewrite Hact. simpl.
  split; [reflexivity|]. split; [reflexivity|]. split; [reflexivity|].
  split; [reflexivity|].
  intros history c Hcalls Hc.
  destruct (string_dec dest_name "ToDelete") as [->|Hne].
  - rewrite action_delete in Hact.
    destruct (Outlook.refuses mb (Outlook.calls mb) Outlook.ItemDelete).
    + injection Hact as _ <-. reflexivity.
    + cbv zeta in Hact.
      destruct (Outlook.refuses mb (Outlook.calls mb ++ [Outlook.ItemDelete])%list
                                Outlook.ItemSubject); [|discriminate].
      injection Hact as _ <-. simpl in Hcalls.
      apply app_inj_tail in Hcalls. destruct Hcalls as [_ <-]. contradiction.
  - rewrite (action_move item inbox_folder trigger match_type mb Hne) in Hact.
    destruct (walk_frame (Py.split Actions.backslash dest_name) inbox_folder mb)
      as (L & _ & _).
    destruct (Actions.walk inbox_folder (Py.split Actions.backslash dest_name) mb)
      as [[f|e1] mb1]; simpl in L.
    + destruct (Outlook.refuses mb1 (Outlook.calls mb1) (Outlook.ItemMove f)).
      * injection Hact as _ <-. exact L.
      * cbv zeta in Hact.
        destruct (Outlook.refuses mb1 (Outlook.calls mb1 ++ [Outlook.ItemMove f])%list
                                  Outlook.ItemSubject); [|discriminate].
        injection Hact as _ <-. simpl in Hcalls.
        apply app_inj_tail in Hcalls. destruct Hcalls as [_ <-]. contradiction.
    + injection Hact as _ <-. exact L.
Qed.

Lemma action_failure_leaves_message_witness :
  fst (fst (Actions.execute_action Sample.alice "Archive" [] "a@x.com" "EmailMatch"
                                   Sample.rules Sample.rejects_moves)) = false
  /\ invalid_logger
       (snd (fst (Actions.execute_action Sample.alice "Archive" [] "a@x.com"
                                         "EmailMatch" Sample.rules
                                         Sample.rejects_moves)))
     = [(ERROR, "ActionError|Archive|com_error")]
  /\ live_logger
       (snd (fst (Actions.execute_action Sample.alice "Archive" [] "a@x.com"
                                         "EmailMatch" Sample.rules
                                         Sample.rejects_moves)))
     = []
  /\ Outlook.location
       (snd (Actions.execute_action Sample.alice "Archive" [] "a@x.com"
                                    "EmailMatch" Sample.rules Sample.rejects_moves))
     = Some [].
Proof.
  destruct (@action_failure_leaves_message Sample.alice "Archive" [] "a@x.com"
              "EmailMatch" Sample.rules Sample.rejects_moves
              (Exception "com_error")
              (Outlook.mkMailbox [["Archive"]] (Some [])
                 (Outlook.refuses Sample.rejects_moves)
                 [Outlook.FoldersItem [] "Archive"; Outlook.FoldersAdd [] "Archive";
                  Outlook.ItemMove ["Archive"]]))
    as (H1 & H2 & H3 & H4 & H5).
  - reflexivity.
  - split; [exact H1|]. split; [exact H2|]. split; [exact H3|].
    rewrite H4.
    apply (H5 [Outlook.FoldersItem [] "Archive"; Outlook.FoldersAdd [] "Archive"]
              (Outlook.ItemMove ["Archive"])).
    + reflexivity.
    + exact I.
Defined.

(** C8 as stated fails: the mail client deletes the item and then refuses
    the read of the subject for the log line.  The block raises,
    [execute_action] logs the error and returns [False], and the item is
    no longer where it was. *)
Lemma subject_read_failure_counterexample :
  fst (Actions.action Sample.alice "ToDelete" [] "a@x.com" "EmailMatch"
                      Sample.stale_after_delete)
    = Raise (Exception "com_error")
  /\ Outlook.calls
       (snd (Actions.execute_action Sample.alice "ToDelete" [] "a@x.com"
                                    "EmailMatch" Sample.rules
                                    Sample.stale_after_delete))
     = [Outlook.ItemDelete; Outlook.ItemSubject]
  /\ fst (fst (Actions.execute_action Sample.alice "ToDelete" [] "a@x.com"
                                      "EmailMatch" Sample.rules
                                      Sample.stale_after_delete)) = false
  /\ invalid_logger
       (snd (fst (Actions.execute_action Sample.alice "ToDelete" [] "a@x.com"
                                         "EmailMatch" Sample.rules
                                         Sample.stale_after_delete)))
     = [(ERROR, "ActionError|ToDelete|com_error")]
  /\ Outlook.location Sample.stale_after_delete = Some []
  /\ Outlook.location
       (snd (Actions.execute_action Sample.alice "ToDelete" [] "a@x.com"
                                    "EmailMatch" Sample.rules
                                    Sample.stale_after_delete))
     = None.
Proof.
  repeat split.
Qed.

(** * Further properties *)

(** ** The cache as a write-back store *)

Section WriteBack.
Import Cache.
Local Open Scope list_scope.

Lemma dict_get_app (V : Type) k (d e : dict V) :
  dict_get k (d ++ e)
  = match dict_get k d with Some v => Some v | None => dict_get k e end.
Proof.
  induction d as [|[k0 v0] d IH]; simpl; [reflexivity|].
  destruct (String.eqb k k0); [reflexivity | exact IH].
Qed.

(** A new resolution appends its entry to the cache; any other call leaves
    the cache as it is. *)
Lemma step_cache fault item s :
  smtp_cache (snd (get_smtp_address fault item s))
  = if new_resolution item s
    then smtp_cache s ++ match resolved_pair item with
                         | Some entry => [entry]
                         | None => []
                         end
    else smtp_cache s.
Proof.
  destruct (new_resolution item s) eqn:N.
  - destruct (new_resolution_step fault item s N) as (so & smtp & HS & HG & Hmiss & E).
    rewrite E. unfold resolved_pair. rewrite HS, HG.
    rewrite <- (@set_absent _ (Py.lower (Address so)) smtp (smtp_cache s))
      by (now apply dict_get_None).
    simpl. destruct (_ <=? _)%Z; [now rewrite save_keeps_cache | reflexivity].
  - now rewrite not_new_keeps_state.
Qed.

Lemma new_resolution_pair item s :
  new_resolution item s = true ->
  exists entry, resolved_pair item = Some entry
               /\ dict_get (fst entry) (smtp_cache s) = None
               /\ Py.lower (fst entry) = fst entry.
Proof.
  intros N.
  destruct (new_resolution_step Healthy item s N) as (so & smtp & HS & HG & Hmiss & _).
  exists (Py.lower (Address so), smtp). unfold resolved_pair. rewrite HS, HG.
  repeat split; [exact Hmiss | apply lower_idem].
Qed.

(** The cache only grows, at its end, by one entry per new resolution. *)
Lemma run_cache calls s :
  exists added,
    smtp_cache (run calls s) = smtp_cache s ++ added
    /\ List.length added = new_resolutions calls s.
Proof.
  revert s; induction calls as [|[fault item] rest IH]; intros s; simpl.
  - exists []. now rewrite app_nil_r.
  - destruct (IH (snd (get_smtp_address fault item s))) as (added & E & L).
    rewrite E, step_cache.
    destruct (new_resolution item s) eqn:N.
    + destruct (new_resolution_pair item s N) as (entry & -> & _).
      exists (entry :: added). rewrite <- app_assoc.
      split; [reflexivity | simpl; now rewrite L].
    + exists added. split; [reflexivity | exact L].
Qed.

Lemma step_keeps_wf fault item s :
  dict_wf (smtp_cache s) -> dict_wf (smtp_cache (snd (get_smtp_address fault item s))).
Proof.
  intros Hwf. rewrite step_cache. destruct (new_resolution item s) eqn:N; [|exact Hwf].
  destruct (new_resolution_pair item s N) as ([k v] & -> & Hmiss & _).
  simpl in Hmiss. rewrite <- set_absent by now apply dict_get_None.
  now apply dict_wf_set.
Qed.

Lemma step_keeps_normalised fault item s :
  normalised (smtp_cache s) ->
  normalised (smtp_cache (snd (get_smtp_address fault item s))).
Proof.
  intros Hn. rewrite step_cache. destruct (new_resolution item s) eqn:N; [|exact Hn].
  destruct (new_resolution_pair item s N) as ([k v] & -> & _ & Hk).
  unfold normalised, keys in *. rewrite map_app. apply Forall_app. split; [exact Hn|].
  repeat constructor. exact Hk.
Qed.

Lemma run_keeps_wf calls s :
  dict_wf (smtp_cache s) -> normalised (smtp_cache s) ->
  dict_wf (smtp_cache (run calls s)) /\ normalised (smtp_cache (run calls s)).
Proof.
  revert s; induction calls as [|[fault item] rest IH]; intros s Hwf Hn; simpl.
  - now split.
  - apply IH; [now apply step_keeps_wf | now apply step_keeps_normalised].
Qed.

Lemma load_gives_wf s :
  dict_wf (smtp_cache (load_cache_from_db s))
  /\ normalised (smtp_cache (load_cache_from_db s)).
Proof.
  unfold load_cache_from_db. destruct (db_file s); simpl.
  - split; constructor.
  - split; constructor.
  - split; [apply dict_wf_of_items | apply rows_to_cache_lower].
Qed.

(** Loading a table that a well-formed lower-case cache was flushed to gives
    that cache. *)
Lemma load_of_flushed s cache :
  db_file s = Table cache -> dict_wf cache -> normalised cache ->
  smtp_cache (load_cache_from_db s) = cache.
Proof.
  intros Hdb Hwf Hn. unfold load_cache_from_db. rewrite Hdb. simpl.
  unfold rows_to_cache. rewrite map_lower_normalised by assumption.
  now apply dict_of_items_wf.
Qed.

Lemma flushes_keep_cache faults :
  forall s, smtp_cache (flushes faults s) = smtp_cache s.
Proof.
  induction faults as [|fault rest IH]; intros s; simpl; [reflexivity|].
  now rewrite IH, save_keeps_cache.
Qed.

Lemma flushes_app first later s :
  flushes (first ++ later) s = flushes later (flushes first s).
Proof.
  revert s; induction first as [|fault rest IH]; intros s; simpl;
    [reflexivity | apply IH].
Qed.

(** Saving again does not change a table that holds the cache, unless a
    write fails after the old table is dropped. *)
Lemma flushes_keep_table faults s :
  Forall keeps_table faults ->
  db_file s = Table (smtp_cache s) ->
  db_file (flushes faults s) = Table (smtp_cache s).
Proof.
  intros Hk. revert s; induction Hk as [|fault rest [Hc Hi] _ IH]; intros s H; simpl.
  - exact H.
  - rewrite IH; [now rewrite save_keeps_cache|].
    rewrite save_keeps_cache. destruct fault; simpl; try exact H; try reflexivity;
      congruence.
Qed.

(** The table is an older copy of the cache: a call keeps it a prefix. *)
Lemma step_keeps_prefix fault item s pending :
  smtp_cache s = stored (db_file s) ++ pending ->
  exists pending',
    smtp_cache (snd (get_smtp_address fault item s))
    = stored (db_file (snd (get_smtp_address fault item s))) ++ pending'
    /\ (fault = Healthy ->
        Z.of_nat (List.length pending) = items_since_last_save s ->
        (items_since_last_save s < cache_save_interval s)%Z ->
        Z.of_nat (List.length pending')
        = items_since_last_save (snd (get_smtp_address fault item s))
        /\ (items_since_last_save (snd (get_smtp_address fault item s))
            < cache_save_interval s)%Z).
Proof.
  intros Hpre. destruct (new_resolution item s) eqn:N.
  - destruct (new_resolution_pair item s N) as (entry & HP & _).
    pose proof (step_cache fault item s) as HC. rewrite N, HP in HC.
    destruct (Z.le_gt_cases (cache_save_interval s) (items_since_last_save s + 1))
      as [Hle|Hgt].
    + destruct (@new_at_interval fault item s N Hle) as (s2 & E & _ & C2 & _ & _).
      rewrite E in *. rewrite save_keeps_cache in HC.
      destruct fault; simpl.
      * exists []. rewrite HC. simpl. rewrite app_nil_r. split; [reflexivity|].
        intros _ Hlen Hlt. simpl. lia.
      * assert (Hdb : db_file s2 = db_file s).
        { destruct (new_resolution_step ConnectFails item s N)
            as (so & smtp & _ & _ & _ & E').
          cbv zeta in E'. destruct (Z.leb_spec (cache_save_interval s)
                                               (items_since_last_save s + 1)); [|lia].
          rewrite E' in E. simpl in E.
          apply (f_equal db_file) in E. simpl in E. now rewrite <- E. }
        exists (pending ++ [entry]). rewrite HC, Hpre, Hdb, <- app_assoc.
        split; [reflexivity | discriminate].
      * assert (Hdb : db_file s2 = db_file s).
        { destruct (new_resolution_step WriteFails item s N)
            as (so & smtp & _ & _ & _ & E').
          cbv zeta in E'. destruct (Z.leb_spec (cache_save_interval s)
                                               (items_since_last_save s + 1)); [|lia].
          rewrite E' in E. simpl in E.
          apply (f_equal db_file) in E. simpl in E. now rewrite <- E. }
        exists (pending ++ [entry]). rewrite HC, Hpre, Hdb, <- app_assoc.
        split; [reflexivity | discriminate].
      * exists []. rewrite HC. simpl. rewrite app_nil_r.
        split; [reflexivity | discriminate].
      * exists (smtp_cache s2). split; [reflexivity | discriminate].
      * exists (smtp_cache s2). split; [reflexivity | discriminate].
    + destruct (@new_below_interval fault item s N) as (_ & Hdb & Hc); [lia|].
      exists (pending ++ [entry]). rewrite HC, Hdb, Hpre, <- app_assoc.
      split; [reflexivity|]. intros _ Hlen Hlt.
      rewrite Hc, length_app. simpl. lia.
  - rewrite (not_new_keeps_state fault item s N). exists pending.
    split; [exact Hpre|]. intros _ Hlen Hlt. now split.
Qed.

End WriteBack.

Section LoadFrame.
Import Loader.

(** Loading rules touches the two rule tables and the invalid log only. *)
Lemma load_sheet_frame xls rule_name info s :
  let s' := fst (load_sheet xls rule_name info s) in
  db_file s' = db_file s /\ smtp_cache s' = smtp_cache s
  /\ items_since_last_save s' = items_since_last_save s
  /\ cache_save_interval s' = cache_save_interval s
  /\ invalid_logger s' = invalid_logger s.
Proof.
  unfold load_sheet.
  repeat match goal with
         | |- context [match ?x with _ => _ end] => destruct x
         end; simpl; repeat split.
Qed.

Lemma load_sheets_frame xls sheet_map :
  forall s,
    let s' := fst (load_sheets xls sheet_map s) in
    db_file s' = db_file s /\ smtp_cache s' = smtp_cache s
    /\ items_since_last_save s' = items_since_last_save s
    /\ cache_save_interval s' = cache_save_interval s
    /\ invalid_logger s' = invalid_logger s.
Proof.
  induction sheet_map as [|[rule_name info] rest IH]; intros s; simpl.
  - repeat split.
  - pose proof (load_sheet_frame xls rule_name info s) as F. simpl in F.
    destruct (load_sheet xls rule_name info s) as [s1 [e|]]; simpl in *.
    + exact F.
    + specialize (IH s1). simpl in IH.
      destruct F as (F1 & F2 & F3 & F4 & F5).
      destruct IH as (I1 & I2 & I3 & I4 & I5).
      repeat split; congruence.
Qed.

Lemma load_data_frame xls sheet_map s :
  db_file (load_data xls sheet_map s) = db_file s
  /\ smtp_cache (load_data xls sheet_map s) = smtp_cache s
  /\ items_since_last_save (load_data xls sheet_map s) = items_since_last_save s
  /\ cache_save_interval (load_data xls sheet_map s) = cache_save_interval s.
Proof.
  unfold load_data. destruct xls as [wb|]; [|repeat split].
  pose proof (load_sheets_frame wb sheet_map s) as F. simpl in F.
  destruct (load_sheets wb sheet_map s) as [s1 [e|]]; simpl in *;
    destruct F as (F1 & F2 & F3 & F4 & _); repeat split; assumption.
Qed.

End LoadFrame.

(** X1.  Flushes never change the cache.  After a flush that succeeded,
    further flushes with no lookup in between leave the table as the first
    one wrote it, as long as none of them fails after the old table is
    dropped (a connect error, an error before the drop, an index error and a
    success all keep it); and whatever earlier flushes did to the table, a
    flush that succeeds makes it the cache again. *)
Theorem repeated_flush_keeps_table :
  forall faults s,
    smtp_cache (flushes faults s) = smtp_cache s
    /\ db_file (flushes (faults ++ [Healthy]) s) = Table (smtp_cache s)
    /\ (Forall keeps_table faults ->
        db_file (flushes faults (Cache.save_smtp_cache Healthy s))
        = db_file (Cache.save_smtp_cache Healthy s)
        /\ db_file (flushes faults (Cache.save_smtp_cache Healthy s))
           = Table (smtp_cache s)).
Proof.
  intros faults s. split; [apply flushes_keep_cache|]. split.
  - rewrite flushes_app. simpl. now rewrite flushes_keep_cache.
  - intros Hk.
    rewrite (@flushes_keep_table faults (Cache.save_smtp_cache Healthy s) Hk);
      [now split | reflexivity].
Qed.

Lemma repeated_flush_keeps_table_witness :
  db_file (flushes [ConnectFails; WriteFails; IndexFails; Healthy]
                   (Cache.save_smtp_cache Healthy Sample.two_entries))
  = Table (smtp_cache Sample.two_entries).
Proof.
  destruct (@repeated_flush_keeps_table
              [ConnectFails; WriteFails; IndexFails; Healthy] Sample.two_entries)
    as (_ & _ & H).
  apply H. repeat constructor; discriminate.
Defined.

(** After a successful flush a write that fails at the insert leaves the
    table empty; the cache is kept, and the next successful flush writes it
    again. *)
Example flush_after_failed_insert :
  db_file (flushes [Healthy; InsertFails] Sample.two_entries) = Table []
  /\ db_file (flushes [Healthy; InsertFails; Healthy] Sample.two_entries)
     = Table (smtp_cache Sample.two_entries).
Proof. split; reflexivity. Qed.

(** X2.  Whatever the configuration, the workbook and the database are at
    construction, and whatever lookups follow, the keys of the cache are
    pairwise distinct and in lower case; hence a flush followed by the
    construction of a new sorter on the same database gives the same
    cache. *)
Theorem cache_survives_restart :
  forall config xls db calls config' xls',
    dict_wf (smtp_cache (Cache.run calls (construct config xls db)))
    /\ normalised (smtp_cache (Cache.run calls (construct config xls db)))
    /\ smtp_cache
         (construct config' xls'
            (db_file (Cache.save_smtp_cache Healthy
                        (Cache.run calls (construct config xls db)))))
       = smtp_cache (Cache.run calls (construct config xls db)).
Proof.
  intros config xls db calls config' xls'.
  destruct (load_gives_wf
              (Loader.load_data xls
                 (match config_sheet_map config with Some m => m | None => [] end)
                 (init (config_cache_save_interval config) db))) as [W N].
  destruct (@run_keeps_wf calls (construct config xls db) W N) as [W' N'].
  split; [exact W' | split; [exact N'|]].
  unfold construct at 1. apply load_of_flushed; [|exact W' | exact N'].
  destruct (load_data_frame xls'
              (match config_sheet_map config' with Some m => m | None => [] end)
              (init (config_cache_save_interval config')
                    (db_file (Cache.save_smtp_cache Healthy
                                (Cache.run calls (construct config xls db))))))
    as [-> _].
  reflexivity.
Qed.

(** X3.  Lookups never change or remove a cache entry: after any calls the
    old cache is the beginning of the new one, one entry was added per new
    resolution, and every key keeps the address it had. *)
Theorem cache_is_append_only :
  forall calls s,
    exists added,
      smtp_cache (Cache.run calls s) = (smtp_cache s ++ added)%list
      /\ List.length added = Cache.new_resolutions calls s
      /\ forall k v, dict_get k (smtp_cache s) = Some v ->
                     dict_get k (smtp_cache (Cache.run calls s)) = Some v.
Proof.
  intros calls s. destruct (run_cache calls s) as (added & E & L).
  exists added. split; [exact E | split; [exact L|]].
  intros k v H. now rewrite E, dict_get_app, H.
Qed.

(** X4.  Once an address has been resolved, every later lookup of it,
    in whatever case the sender writes it and whatever the directory
    answers by then, returns the address resolved first, and the state
    stays as it is. *)
Theorem resolved_address_is_kept :
  forall s fault item ex_addr smtp calls fault' item' sender_obj,
    dict_get ex_addr (smtp_cache s) = None ->
    resolver_gives item ex_addr smtp ->
    Sender item' = Some sender_obj ->
    AddressEntryUserType sender_obj = 0%Z ->
    Py.lower (Address sender_obj) = ex_addr ->
    Cache.get_smtp_address fault' item'
      (Cache.run calls (snd (Cache.get_smtp_address fault item s)))
    = (Some smtp, Cache.run calls (snd (Cache.get_smtp_address fault item s))).
Proof.
  intros s fault item ex_addr smtp calls fault' item' sender_obj
         Hmiss (so & HS & HT & HA & HG) HS' HT' HA'.
  assert (N : Cache.new_resolution item s = true).
  { unfold Cache.new_resolution, dict_mem. now rewrite HS, HT, HA, Hmiss, HG. }
  assert (Hin : dict_get ex_addr (smtp_cache (snd (Cache.get_smtp_address fault item s)))
                = Some smtp).
  { rewrite step_cache, N. unfold resolved_pair. rewrite HS, HG, HA.
    rewrite dict_get_app, Hmiss. simpl. now rewrite String.eqb_refl. }
  destruct (run_cache calls (snd (Cache.get_smtp_address fault item s)))
    as (added & E & _).
  unfold Cache.get_smtp_address at 1. rewrite HS', HT', HA'. simpl.
  now rewrite E, dict_get_app, Hin.
Qed.

Lemma resolved_address_is_kept_witness :
  Cache.get_smtp_address ConnectFails Sample.alice_renamed
    (Cache.run [(Healthy, Sample.bob)]
               (snd (Cache.get_smtp_address Healthy Sample.alice
                                            (init None Missing))))
  = (Some "alice@x.com",
     Cache.run [(Healthy, Sample.bob)]
               (snd (Cache.get_smtp_address Healthy Sample.alice
                                            (init None Missing)))).
Proof.
  apply (@resolved_address_is_kept (init None Missing) Healthy Sample.alice
           "/o=org/cn=alice" "alice@x.com" [(Healthy, Sample.bob)] ConnectFails
           Sample.alice_renamed
           (mkEntry 0 "/o=org/cn=Alice" (User "alice.new@x.com"))).
  - reflexivity.
  - eexists. repeat split; reflexivity.
  - reflexivity.
  - reflexivity.
  - reflexivity.
Defined.

(** X5.  The table in the database is always an older copy of the cache:
    if the cache starts as the stored rows followed by further entries, it
    is so again after any lookups, whatever the file system did to the
    flushes they triggered. *)
Theorem stored_table_is_prefix_of_cache :
  forall calls s pending,
    smtp_cache s = (stored (db_file s) ++ pending)%list ->
    exists pending',
      smtp_cache (Cache.run calls s)
      = (stored (db_file (Cache.run calls s)) ++ pending')%list.
Proof.
  induction calls as [|[fault item] rest IH]; intros s pending H; simpl.
  - now exists pending.
  - destruct (@step_keeps_prefix fault item s pending H) as (pending1 & H1 & _).
    exact (IH _ pending1 H1).
Qed.

Lemma stored_table_is_prefix_of_cache_witness :
  exists pending',
    smtp_cache (Cache.run [(Healthy, Sample.alice); (WriteFails, Sample.bob)]
                          (init (Some 2%Z) Missing))
    = (stored (db_file (Cache.run [(Healthy, Sample.alice); (WriteFails, Sample.bob)]
                                  (init (Some 2%Z) Missing)))
       ++ pending')%list.
Proof.
  apply (@stored_table_is_prefix_of_cache
           [(Healthy, Sample.alice); (WriteFails, Sample.bob)]
           (init (Some 2%Z) Missing) []).
  reflexivity.
Defined.

(** X6.  While the flushes succeed, the pending counter is the number of
    cache entries that are not yet in the table, and it stays below the
    interval: at most [cache_save_interval - 1] resolved addresses are
    lost if the process stops. *)
Theorem unsaved_entries_are_bounded :
  forall calls s pending,
    smtp_cache s = (stored (db_file s) ++ pending)%list ->
    Z.of_nat (List.length pending) = items_since_last_save s ->
    (items_since_last_save s < cache_save_interval s)%Z ->
    Forall (fun c => fst c = Healthy) calls ->
    exists pending',
      smtp_cache (Cache.run calls s)
      = (stored (db_file (Cache.run calls s)) ++ pending')%list
      /\ Z.of_nat (List.length pending') = items_since_last_save (Cache.run calls s)
      /\ (items_since_last_save (Cache.run calls s) < cache_save_interval s)%Z.
Proof.
  induction calls as [|[fault item] rest IH]; intros s pending H Hlen Hlt Hh; simpl.
  - now exists pending.
  - inversion Hh as [|? ? Hf Hrest]; subst. simpl in Hf. subst fault.
    destruct (@step_keeps_prefix Healthy item s pending H) as (pending1 & H1 & H2).
    destruct (H2 eq_refl Hlen Hlt) as [L1 B1].
    destruct (IH (snd (Cache.get_smtp_address Healthy item s)) pending1 H1 L1)
      as (pending' & P1 & P2 & P3).
    + now rewrite step_keeps_interval.
    + exact Hrest.
    + exists pending'. rewrite step_keeps_interval in P3. now repeat split.
Qed.

Lemma unsaved_entries_are_bounded_witness :
  exists pending',
    smtp_cache (Cache.run [(Healthy, Sample.alice); (Healthy, Sample.bob);
                           (Healthy, Sample.carol)] (init (Some 2%Z) Missing))
    = (stored (db_file (Cache.run [(Healthy, Sample.alice); (Healthy, Sample.bob);
                                   (Healthy, Sample.carol)]
                                  (init (Some 2%Z) Missing)))
       ++ pending')%list
    /\ Z.of_nat (List.length pending')
       = items_since_last_save
           (Cache.run [(Healthy, Sample.alice); (Healthy, Sample.bob);
                       (Healthy, Sample.carol)] (init (Some 2%Z) Missing))
    /\ (items_since_last_save
          (Cache.run [(Healthy, Sample.alice); (Healthy, Sample.bob);
                      (Healthy, Sample.carol)] (init (Some 2%Z) Missing))
        < cache_save_interval (init (Some 2%Z) Missing))%Z.
Proof.
  apply (@unsaved_entries_are_bounded
           [(Healthy, Sample.alice); (Healthy, Sample.bob); (Healthy, Sample.carol)]
           (init (Some 2%Z) Missing) []).
  - reflexivity.
  - reflexivity.
  - simpl. lia.
  - repeat constructor.
Defined.

(** ** What a load puts into the rule tables *)

Section LoadedRules.
Import Loader.
Local Open Scope list_scope.

Lemma cell_eqb_eq a b : cell_eqb a b = true <-> a = b.
Proof.
  destruct a, b; simpl; try (split; [discriminate | congruence]).
  - split; reflexivity.
  - rewrite String.eqb_eq. split; congruence.
  - rewrite String.eqb_eq. split; congruence.
Qed.

Lemma unique_In cs x : In x (unique cs) <-> In x cs.
Proof.
  split; [apply unique_incl|].
  induction cs as [|c r IH]; simpl; [tauto|].
  intros [->|H]; [now left|].
  destruct (cell_eqb c x) eqn:E.
  - left. now apply cell_eqb_eq.
  - right. apply filter_In. split; [now apply IH | now rewrite E].
Qed.

Lemma kept_In cs x : In x (unique (dropna cs)) <-> In x cs /\ x <> NaN.
Proof.
  rewrite unique_In. unfold dropna. rewrite filter_In.
  destruct x; simpl; intuition congruence.
Qed.

(** A value stored under a key stays while the same rule is stored under
    further keys. *)
Lemma load_addresses_stays dest so l :
  forall rules k,
    dict_get k rules = Some (mkEmailRule dest so) ->
    dict_get k (fst (load_addresses dest so l rules)) = Some (mkEmailRule dest so).
Proof.
  induction l as [|c r IH]; intros rules k H; simpl; [exact H|].
  destruct c; simpl; try exact H.
  apply IH. rewrite dict_get_set. now destruct (String.eqb k (Py.lower s)).
Qed.

Lemma load_addresses_present dest so l :
  forall rules a,
    Forall (fun x => exists t, x = Text t) l -> In (Text a) l ->
    dict_get (Py.lower a) (fst (load_addresses dest so l rules))
    = Some (mkEmailRule dest so).
Proof.
  induction l as [|c r IH]; intros rules a Hl Hin; simpl; [destruct Hin|].
  inversion Hl as [|? ? [t ->] Hr]; subst.
  destruct Hin as [H|Hin].
  - injection H as ->. apply load_addresses_stays.
    rewrite dict_get_set. now rewrite String.eqb_refl.
  - now apply IH.
Qed.

Lemma load_addresses_absent dest so l :
  forall rules k,
    (forall a, In (Text a) l -> Py.lower a <> k) ->
    dict_get k (fst (load_addresses dest so l rules)) = dict_get k rules.
Proof.
  induction l as [|c r IH]; intros rules k H; simpl; [reflexivity|].
  destruct c; simpl; try reflexivity.
  rewrite IH by (intros a Ha; apply H; now right).
  rewrite dict_get_set.
  destruct (String.eqb_spec k (Py.lower s)) as [->|_]; [|reflexivity].
  exfalso. apply (H s); [now left | reflexivity].
Qed.

Lemma load_addresses_all dest so l rules :
  Forall (fun x => exists t, x = Text t) l ->
  snd (load_addresses dest so l rules) = None.
Proof.
  intros Hl. revert rules.
  induction Hl as [|x l [t ->] _ IH]; intros rules; simpl; [reflexivity | apply IH].
Qed.

Lemma load_keywords_stays dest mf l :
  forall rules k,
    dict_get k rules = Some (mkKeywordRule dest mf) ->
    dict_get k (load_keywords dest mf l rules) = Some (mkKeywordRule dest mf).
Proof.
  induction l as [|c r IH]; intros rules k H; simpl; [exact H|].
  apply IH. rewrite dict_get_set. now destruct (String.eqb k (Py.lower (str c))).
Qed.

Lemma load_keywords_present dest mf l :
  forall rules c,
    In c l ->
    dict_get (Py.lower (str c)) (load_keywords dest mf l rules)
    = Some (mkKeywordRule dest mf).
Proof.
  induction l as [|x r IH]; intros rules c Hin; simpl; [destruct Hin|].
  destruct Hin as [->|Hin].
  - apply load_keywords_stays. rewrite dict_get_set. now rewrite String.eqb_refl.
  - now apply IH.
Qed.

(** The column loop with every column present: no error, and every cell
    that is not empty has its rule. *)
Lemma load_keyword_columns_present (df : DataFrame) dest mf cols :
  forall rules,
    (forall col, In col cols ->
                 exists name cells, col = Some name /\ dict_get name df = Some cells) ->
    snd (load_keyword_columns df dest mf cols rules) = None
    /\ (forall k, dict_get k rules = Some (mkKeywordRule dest mf) ->
                  dict_get k (fst (load_keyword_columns df dest mf cols rules))
                  = Some (mkKeywordRule dest mf))
    /\ (forall name cells c,
           In (Some name) cols -> dict_get name df = Some cells ->
           In c cells -> c <> NaN ->
           dict_get (Py.lower (str c))
                    (fst (load_keyword_columns df dest mf cols rules))
           = Some (mkKeywordRule dest mf)).
Proof.
  induction cols as [|col rest IH]; intros rules Hcols; simpl.
  - split; [reflexivity|]. split; [tauto|]. intros name cells c [].
  - destruct (Hcols col (or_introl eq_refl)) as (name & cells & -> & Hdf).
    simpl. rewrite Hdf. simpl.
    destruct (IH (load_keywords dest mf (unique (dropna cells)) rules))
      as (I1 & I2 & I3).
    { intros c Hc. apply Hcols. now right. }
    split; [exact I1|]. split.
    + intros k Hk. apply I2. now apply load_keywords_stays.
    + intros name' cells' c [Heq|Hin] Hdf' Hc Hna.
      * injection Heq as <-. rewrite Hdf in Hdf'. injection Hdf' as <-.
        apply I2. apply load_keywords_present. now apply kept_In.
      * now apply (I3 name' cells').
Qed.

Lemma keys_set_normalised (V : Type) k (v : V) d :
  Py.lower k = k -> normalised d -> normalised (dict_set k v d).
Proof.
  unfold normalised. intros Hk Hd. rewrite keys_set.
  destruct (dict_mem k d); [exact Hd|].
  apply Forall_app. split; [exact Hd | repeat constructor; exact Hk].
Qed.

Lemma load_addresses_normalised dest so l :
  forall rules, normalised rules -> normalised (fst (load_addresses dest so l rules)).
Proof.
  induction l as [|c r IH]; intros rules H; simpl; [exact H|].
  destruct c; simpl; try exact H.
  apply IH. apply keys_set_normalised; [apply lower_idem | exact H].
Qed.

Lemma load_keywords_normalised dest mf l :
  forall rules, normalised rules -> normalised (load_keywords dest mf l rules).
Proof.
  induction l as [|c r IH]; intros rules H; simpl; [exact H|].
  apply IH. apply keys_set_normalised; [apply lower_idem | exact H].
Qed.

Lemma load_keyword_columns_normalised (df : DataFrame) dest mf cols :
  forall rules,
    normalised rules ->
    normalised (fst (load_keyword_columns df dest mf cols rules)).
Proof.
  induction cols as [|col rest IH]; intros rules H; simpl; [exact H|].
  destruct (df_getitem df col); simpl; [|exact H].
  apply IH. now apply load_keywords_normalised.
Qed.

Lemma load_sheet_normalised xls rule_name info s :
  normalised (email_rules s) -> normalised (keyword_rules s) ->
  normalised (email_rules (fst (load_sheet xls rule_name info s)))
  /\ normalised (keyword_rules (fst (load_sheet xls rule_name info s))).
Proof.
  intros He Hk. unfold load_sheet.
  destruct (getitem (sheet info) "sheet"); [|now split].
  destruct (getitem (dict_get a xls) a); [|now split].
  destruct (getitem (destination_name info) "destination_name"); [|now split].
  destruct (is_email_rule rule_name).
  - destruct (getitem (column info) "column"); [|now split].
    destruct (df_getitem a0 (Some a2)); [|now split].
    pose proof (@load_addresses_normalised a1 (String.eqb rule_name "ResearchEmail")
                  (unique (dropna a3)) (email_rules s) He) as N.
    destruct (load_addresses a1 (String.eqb rule_name "ResearchEmail")
                             (unique (dropna a3)) (email_rules s)).
    now split.
  - match goal with
    | |- context [load_keyword_columns ?df ?d ?m ?c ?r] =>
        pose proof (@load_keyword_columns_normalised df d m c r Hk) as N;
        destruct (load_keyword_columns df d m c r)
    end.
    now split.
Qed.

Lemma load_sheets_normalised xls sheet_map :
  forall s,
    normalised (email_rules s) -> normalised (keyword_rules s) ->
    normalised (email_rules (fst (load_sheets xls sheet_map s)))
    /\ normalised (keyword_rules (fst (load_sheets xls sheet_map s))).
Proof.
  induction sheet_map as [|[rule_name info] rest IH]; intros s He Hk; simpl.
  - now split.
  - destruct (load_sheet_normalised xls rule_name info s He Hk) as [N1 N2].
    destruct (load_sheet xls rule_name info s) as [s1 [e|]]; simpl in *.
    + now split.
    + now apply IH.
Qed.

Lemma load_sheets_app xls a b :
  forall s,
    load_sheets xls (a ++ b) s
    = match load_sheets xls a s with
      | (s1, None) => load_sheets xls b s1
      | (s1, Some e) => (s1, Some e)
      end.
Proof.
  induction a as [|[rule_name info] rest IH]; intros s; simpl; [reflexivity|].
  destruct (load_sheet xls rule_name info s) as [s1 [e|]]; [reflexivity | apply IH].
Qed.

End LoadedRules.

(** X7.  A sender sheet whose column holds only texts and empty cells is
    loaded completely and without a report: every address of the column is
    a key of the sender table in lower case, with the destination of the
    sheet and the sender-only flag of the rule name; the other keys and
    the keyword table are as before. *)
Theorem sender_sheet_loads_every_address :
  forall (xls : Loader.Workbook) rule_name info s name (df : Loader.DataFrame)
         dest col cells,
    Loader.is_email_rule rule_name = true ->
    Loader.sheet info = Some name ->
    dict_get name xls = Some df ->
    Loader.destination_name info = Some dest ->
    Loader.column info = Some col ->
    dict_get col df = Some cells ->
    Forall loadable cells ->
    invalid_logger (Loader.load_data (Some xls) [(rule_name, info)] s)
    = invalid_logger s
    /\ keyword_rules (Loader.load_data (Some xls) [(rule_name, info)] s)
       = keyword_rules s
    /\ (forall a,
           In (Loader.Text a) cells ->
           dict_get (Py.lower a)
                    (email_rules (Loader.load_data (Some xls) [(rule_name, info)] s))
           = Some (mkEmailRule dest (String.eqb rule_name "ResearchEmail")))
    /\ (forall k,
           (forall a, In (Loader.Text a) cells -> Py.lower a <> k) ->
           dict_get k (email_rules (Loader.load_data (Some xls) [(rule_name, info)] s))
           = dict_get k (email_rules s)).
Proof.
  intros xls rule_name info s name df dest col cells
         Hkind Hsheet Hdf Hdest Hcol Hcells Hload.
  pose proof (loadable_texts Hload) as Htexts.
  assert (E : Loader.load_data (Some xls) [(rule_name, info)] s
              = set_email_rules
                  (fst (Loader.load_addresses dest (String.eqb rule_name "ResearchEmail")
                          (Loader.unique (Loader.dropna cells)) (email_rules s)))
                  s).
  { unfold Loader.load_data. cbn [Loader.load_sheets]. unfold Loader.load_sheet.
    rewrite Hsheet. cbn [getitem]. rewrite Hdf. cbn [getitem].
    rewrite Hdest. cbn [getitem]. rewrite Hkind, Hcol.
    cbn [getitem Loader.df_getitem]. rewrite Hcells. cbn [getitem].
    rewrite (surjective_pairing
               (Loader.load_addresses dest (String.eqb rule_name "ResearchEmail")
                  (Loader.unique (Loader.dropna cells)) (email_rules s))).
    now rewrite (load_addresses_all dest (String.eqb rule_name "ResearchEmail")
                   (email_rules s) Htexts). }
  rewrite E. simpl. split; [reflexivity|]. split; [reflexivity|]. split.
  - intros a Ha. apply load_addresses_present; [exact Htexts|].
    apply kept_In. split; [exact Ha | discriminate].
  - intros k Hk. apply load_addresses_absent.
    intros a Ha. apply Hk. apply kept_In in Ha. tauto.
Qed.

Lemma sender_sheet_loads_every_address_witness :
  invalid_logger (Loader.load_data (Some Sample.senders_without_number)
                                   Sample.spam_senders (init None Missing)) = []
  /\ dict_get "b@x.com"
       (email_rules (Loader.load_data (Some Sample.senders_without_number)
                                      Sample.spam_senders (init None Missing)))
     = Some (mkEmailRule "ToDelete" false).
Proof.
  destruct (@sender_sheet_loads_every_address Sample.senders_without_number
              "SpamEmail"
              (Loader.mkInfo (Some "Senders") (Some "ToDelete") (Some "Email")
                             None None)
              (init None Missing) "Senders"
              [("Email", [Loader.Text "A@x.com"; Loader.NaN; Loader.Text "b@x.com"])]
              "ToDelete" "Email"
              [Loader.Text "A@x.com"; Loader.NaN; Loader.Text "b@x.com"])
    as (H1 & _ & H3 & _).
  - reflexivity.
  - reflexivity.
  - reflexivity.
  - reflexivity.
  - reflexivity.
  - reflexivity.
  - repeat constructor.
  - split; [exact H1|]. apply (H3 "b@x.com"). right. right. left. reflexivity.
Defined.

(** X8.  Sender matching ignores case from the sheet to the message: after
    such a sheet is loaded, a message whose sender equals an address of the
    column up to case is answered by the sender pass with the destination
    of the sheet, whatever its subject and body are (for the rule name
    [ResearchEmail] the address must not be empty). *)
Theorem loaded_sender_matches_any_case :
  forall (xls : Loader.Workbook) rule_name info s name (df : Loader.DataFrame)
         dest col cells a sender subject body,
    Loader.is_email_rule rule_name = true ->
    Loader.sheet info = Some name ->
    dict_get name xls = Some df ->
    Loader.destination_name info = Some dest ->
    Loader.column info = Some col ->
    dict_get col df = Some cells ->
    Forall loadable cells ->
    In (Loader.Text a) cells ->
    Py.lower sender = Py.lower a ->
    rule_name <> "ResearchEmail" \/ Py.lower a <> "" ->
    Classifier.classify_steps
      (Loader.load_data (Some xls) [(rule_name, info)] s) sender subject body
    = ([], Some (Classifier.mkDecision dest (Py.lower a) "EmailMatch")).
Proof.
  intros xls rule_name info s name df dest col cells a sender subject body
         Hkind Hsheet Hdf Hdest Hcol Hcells Hload Hin Hcase Hguard.
  pose proof (loadable_texts Hload) as Htexts.
  assert (G : dict_get (Py.lower a)
                (email_rules (Loader.load_data (Some xls) [(rule_name, info)] s))
              = Some (mkEmailRule dest (String.eqb rule_name "ResearchEmail"))).
  { unfold Loader.load_data. cbn [Loader.load_sheets]. unfold Loader.load_sheet.
    rewrite Hsheet. cbn [getitem]. rewrite Hdf. cbn [getitem].
    rewrite Hdest. cbn [getitem]. rewrite Hkind, Hcol.
    cbn [getitem Loader.df_getitem]. rewrite Hcells. cbn [getitem].
    rewrite (surjective_pairing
               (Loader.load_addresses dest (String.eqb rule_name "ResearchEmail")
                  (Loader.unique (Loader.dropna cells)) (email_rules s))).
    rewrite (load_addresses_all dest (String.eqb rule_name "ResearchEmail")
               (email_rules s) Htexts).
    simpl. apply load_addresses_present; [exact Htexts|].
    apply kept_In. split; [exact Hin | discriminate]. }
  unfold Classifier.classify_steps. rewrite Hcase.
  rewrite (sender_pass_hit _ G); [reflexivity|].
  destruct Hguard as [Hname|Hne]; [left | now right].
  simpl. now apply String.eqb_neq.
Qed.

Lemma loaded_sender_matches_any_case_witness :
  Classifier.classify_steps
    (Loader.load_data (Some Sample.senders_without_number) Sample.spam_senders
                      (init None Missing))
    "a@X.COM" "Invoice" "inv"
  = ([], Some (Classifier.mkDecision "ToDelete" "a@x.com" "EmailMatch")).
Proof.
  apply (@loaded_sender_matches_any_case Sample.senders_without_number
           "SpamEmail"
           (Loader.mkInfo (Some "Senders") (Some "ToDelete") (Some "Email")
                          None None)
           (init None Missing) "Senders"
           [("Email", [Loader.Text "A@x.com"; Loader.NaN; Loader.Text "b@x.com"])]
           "ToDelete" "Email"
           [Loader.Text "A@x.com"; Loader.NaN; Loader.Text "b@x.com"]
           "A@x.com" "a@X.COM" "Invoice" "inv").
  - reflexivity.
  - reflexivity.
  - reflexivity.
  - reflexivity.
  - reflexivity.
  - reflexivity.
  - repeat constructor.
  - left. reflexivity.
  - reflexivity.
  - left. discriminate.
Defined.

(** X9.  A keyword sheet whose listed columns all exist is loaded completely
    and without a report: every cell that is not empty, a number included
    (by the text [str] gives it), is a key of the keyword table in lower
    case, with the destination of the sheet and its match field
    ([subject_only] when the configuration names none); the sender table
    is as before. *)
Theorem keyword_sheet_loads_every_cell :
  forall (xls : Loader.Workbook) rule_name info s sheet_name
         (df : Loader.DataFrame) dest,
    Loader.is_email_rule rule_name = false ->
    Loader.sheet info = Some sheet_name ->
    dict_get sheet_name xls = Some df ->
    Loader.destination_name info = Some dest ->
    (forall col,
        In col (match Loader.columns info with
                | Some l => map Some l
                | None => [Loader.column info]
                end) ->
        exists name cells, col = Some name /\ dict_get name df = Some cells) ->
    invalid_logger (Loader.load_data (Some xls) [(rule_name, info)] s)
    = invalid_logger s
    /\ email_rules (Loader.load_data (Some xls) [(rule_name, info)] s)
       = email_rules s
    /\ (forall name cells c,
           In (Some name) (match Loader.columns info with
                           | Some l => map Some l
                           | None => [Loader.column info]
                           end) ->
           dict_get name df = Some cells ->
           In c cells -> c <> Loader.NaN ->
           dict_get (Py.lower (Loader.str c))
                    (keyword_rules (Loader.load_data (Some xls) [(rule_name, info)] s))
           = Some (mkKeywordRule dest
                     (match Loader.match_field info with
                      | Some f => f
                      | None => "subject_only"
                      end))).
Proof.
  intros xls rule_name info s sheet_name df dest Hkind Hsheet Hdf Hdest Hcols.
  destruct (@load_keyword_columns_present df dest
              (match Loader.match_field info with
               | Some f => f
               | None => "subject_only"
               end)
              (match Loader.columns info with
               | Some l => map Some l
               | None => [Loader.column info]
               end) (keyword_rules s) Hcols) as (L1 & _ & L3).
  unfold Loader.load_data. cbn [Loader.load_sheets]. unfold Loader.load_sheet.
  rewrite Hsheet. cbn [getitem]. rewrite Hdf. cbn [getitem].
  rewrite Hdest. cbn [getitem]. rewrite Hkind.
  match goal with
  | |- context [Loader.load_keyword_columns ?d ?x ?m ?c ?r] =>
      rewrite (surjective_pairing (Loader.load_keyword_columns d x m c r))
  end.
  rewrite L1. simpl. split; [reflexivity|]. split; [reflexivity|]. exact L3.
Qed.

Lemma keyword_sheet_loads_every_cell_witness :
  invalid_logger (Loader.load_data (Some Sample.keyword_book)
                    [("FinanceKeyword", Sample.finance_keywords)]
                    (init None Missing)) = []
  /\ dict_get "4711"
       (keyword_rules (Loader.load_data (Some Sample.keyword_book)
                         [("FinanceKeyword", Sample.finance_keywords)]
                         (init None Missing)))
     = Some (mkKeywordRule "Finance" "subject_and_body").
Proof.
  destruct (@keyword_sheet_loads_every_cell Sample.keyword_book "FinanceKeyword"
              Sample.finance_keywords (init None Missing) "Keywords"
              [("Words", [Loader.Text "Invoice"; Loader.NaN;
                          Loader.Text "Payment due"]);
               ("Codes", [Loader.Number "4711"; Loader.Text "INVOICE"])]
              "Finance") as (H1 & _ & H3).
  - reflexivity.
  - reflexivity.
  - reflexivity.
  - reflexivity.
  - simpl. intros col [<-|[<-|[]]]; eexists _, _; split; reflexivity.
  - split; [exact H1|].
    apply (H3 "Codes" [Loader.Number "4711"; Loader.Text "INVOICE"]
              (Loader.Number "4711")).
    + simpl. right. left. reflexivity.
    + reflexivity.
    + left. reflexivity.
    + discriminate.
Defined.

(** X10.  The keys of both rule tables of a constructed sorter are in lower
    case, whatever the workbook and the configuration hold and wherever a
    load stops; a load keeps this for tables that have it. *)
Theorem rule_keys_are_lower_case :
  forall config xls db,
    normalised (email_rules (construct config xls db))
    /\ normalised (keyword_rules (construct config xls db))
    /\ (forall xls' sheet_map s,
           normalised (email_rules s) -> normalised (keyword_rules s) ->
           normalised (email_rules (Loader.load_data xls' sheet_map s))
           /\ normalised (keyword_rules (Loader.load_data xls' sheet_map s))).
Proof.
  intros config xls db.
  assert (L : forall xls' sheet_map s,
             normalised (email_rules s) -> normalised (keyword_rules s) ->
             normalised (email_rules (Loader.load_data xls' sheet_map s))
             /\ normalised (keyword_rules (Loader.load_data xls' sheet_map s))).
  { intros xls' sheet_map s He Hk. unfold Loader.load_data.
    destruct xls' as [wb|]; [|now split].
    destruct (load_sheets_normalised wb sheet_map s He Hk) as [N1 N2].
    destruct (Loader.load_sheets wb sheet_map s) as [s1 [e|]]; now split. }
  destruct (L xls (match config_sheet_map config with Some m => m | None => [] end)
              (init (config_cache_save_interval config) db)) as [N1 N2];
    [constructor | constructor |].
  split; [|split; [|exact L]].
  - unfold construct, Cache.load_cache_from_db.
    destruct (db_file _); exact N1.
  - unfold construct, Cache.load_cache_from_db.
    destruct (db_file _); exact N2.
Qed.

(** X11.  Sheets are loaded in the order of the configuration.  When the
    first sheets load without an error, the load of all sheets is the load
    of the remaining ones on top of them; when one of them raises, the
    sheets after it are never looked at. *)
Theorem load_data_in_configuration_order :
  forall xls first later s,
    Loader.load_data (Some xls) (first ++ later)%list s
    = match snd (Loader.load_sheets xls first s) with
      | None => Loader.load_data (Some xls) later
                                 (fst (Loader.load_sheets xls first s))
      | Some _ => Loader.load_data (Some xls) first s
      end.
Proof.
  intros xls first later s. unfold Loader.load_data.
  rewrite load_sheets_app.
  destruct (Loader.load_sheets xls first s) as [s1 [e|]]; reflexivity.
Qed.

(** ** One message from end to end *)

Section ProcessFacts.
Import Outlook Actions.
Local Open Scope list_scope.

(** A lookup leaves the rule tables and the live log alone. *)
Lemma step_keeps_rules fault item s :
  email_rules (snd (Cache.get_smtp_address fault item s)) = email_rules s
  /\ keyword_rules (snd (Cache.get_smtp_address fault item s)) = keyword_rules s
  /\ live_logger (snd (Cache.get_smtp_address fault item s)) = live_logger s.
Proof.
  destruct (Cache.new_resolution item s) eqn:N.
  - destruct (new_resolution_step fault item s N) as (so & smtp & _ & _ & _ & ->).
    simpl. destruct (_ <=? _)%Z; [destruct fault|]; repeat split.
  - rewrite not_new_keeps_state by assumption. repeat split.
Qed.

Lemma dict_get_pair (V : Type) k (d : dict V) v :
  dict_get k d = Some v -> In (k, v) d.
Proof.
  induction d as [|[k0 v0] r IH]; simpl; [discriminate|].
  destruct (String.eqb_spec k k0) as [->|_].
  - intros H. injection H as ->. now left.
  - intros H. right. now apply IH.
Qed.

(** The destination of a decision is the destination of a loaded rule. *)
Lemma classify_dest s sender subject body d :
  Classifier.classify s sender subject body = Some d ->
  (exists k r, In (k, r) (email_rules s) /\ Classifier.dest d = e_dest r)
  \/ (exists k r, In (k, r) (keyword_rules s) /\ Classifier.dest d = k_dest r).
Proof.
  unfold Classifier.classify, Classifier.classify_steps, Classifier.sender_pass.
  destruct (dict_get (Py.lower sender) (email_rules s)) as [r|] eqn:G.
  - destruct (negb (sender_only r) || Py.truthy (Py.lower sender)).
    + simpl. intros H. injection H as <-. left.
      exists (Py.lower sender), r. split; [now apply dict_get_pair | reflexivity].
    + intros H. right. revert H.
      induction (keyword_rules s) as [|[kw info] rest IH]; simpl; [discriminate|].
      destruct (Classifier.kw_match info kw (Py.lower subject) (Py.lower body)).
      * simpl. intros H. injection H as <-. exists kw, info. split; [now left | reflexivity].
      * destruct (Classifier.keyword_pass rest (Py.lower subject) (Py.lower body))
          as [tested o]. simpl in *. intros H.
        destruct (IH H) as (k & r' & Hin & Hd). exists k, r'. split; [now right | exact Hd].
  - intros H. right. revert H.
    induction (keyword_rules s) as [|[kw info] rest IH]; simpl; [discriminate|].
    destruct (Classifier.kw_match info kw (Py.lower subject) (Py.lower body)).
    + simpl. intros H. injection H as <-. exists kw, info. split; [now left | reflexivity].
    + destruct (Classifier.keyword_pass rest (Py.lower subject) (Py.lower body))
        as [tested o]. simpl in *. intros H.
      destruct (IH H) as (k & r' & Hin & Hd). exists k, r'. split; [now right | exact Hd].
Qed.

(** The calls of [execute_action] for a destination other than [ToDelete]
    contain no delete. *)
Lemma execute_move_calls item dest_name inbox_folder trigger match_type s mb :
  dest_name <> "ToDelete"%string ->
  exists cs,
    calls (snd (execute_action item dest_name inbox_folder trigger match_type s mb))
    = calls mb ++ cs
    /\ ~ In ItemDelete cs.
Proof.
  intros Hne. unfold execute_action.
  rewrite (action_move item inbox_folder trigger match_type mb Hne).
  destruct (walk_frame (Py.split backslash dest_name) inbox_folder mb)
    as (_ & _ & cs & C & F & _).
  destruct (walk inbox_folder (Py.split backslash dest_name) mb) as [[f|e] mb1];
    simpl in C.
  - destruct (refuses mb1 (calls mb1) (ItemMove f)).
    + exists (cs ++ [ItemMove f]). simpl. split; [now rewrite C, app_assoc|].
      intros H. apply in_app_or in H. destruct H as [H|[H|[]]]; [|discriminate].
      now apply folder_call_not_delete in H.
    + cbv zeta.
      destruct (refuses mb1 (calls mb1 ++ [ItemMove f]) ItemSubject);
        (exists (cs ++ [ItemMove f; ItemSubject]); simpl;
         split; [rewrite C, <- !app_assoc; reflexivity|];
         intros H; apply in_app_or in H;
         destruct H as [H|[H|[H|[]]]]; try discriminate;
         now apply folder_call_not_delete in H).
  - exists cs. simpl. split; [exact C | now apply folder_call_not_delete].
Qed.

(** [execute_action] writes one line: to the live log when it returns
    [True], to the invalid log when it returns [False]. *)
Lemma execute_log item dest_name inbox_folder trigger match_type s mb :
  exists line,
    snd (fst (execute_action item dest_name inbox_folder trigger match_type s mb))
    = if fst (fst (execute_action item dest_name inbox_folder trigger match_type s mb))
      then log_live INFO line s
      else log_invalid ERROR line s.
Proof.
  unfold execute_action.
  destruct (action item dest_name inbox_folder trigger match_type mb) as [[line|e] mb'];
    simpl; eexists; reflexivity.
Qed.

End ProcessFacts.

(** X12.  A message is never deleted unless a loaded rule says so: when no
    sender rule and no keyword rule has the destination [ToDelete],
    [process_email] makes no call of [item.Delete()], whatever the message,
    the cache and the mail client are. *)
Theorem no_delete_without_delete_rule :
  forall fault item inbox_folder s mb,
    no_rule_to "ToDelete" s ->
    exists cs,
      Outlook.calls (snd (Actions.process_email fault item inbox_folder s mb))
      = (Outlook.calls mb ++ cs)%list
      /\ ~ In Outlook.ItemDelete cs.
Proof.
  intros fault item inbox_folder s mb [He Hk].
  unfold Actions.process_email, Actions.Item_Subject, Outlook.bind, Outlook.invoke,
    Outlook.ret.
  destruct (Outlook.refuses mb (Outlook.calls mb) Outlook.ItemSubject).
  - exists [Outlook.ItemSubject]. simpl. split; [reflexivity|].
    intros [H|[]]. discriminate.
  - destruct (step_keeps_rules fault item s) as (R1 & R2 & _).
    destruct (Cache.get_smtp_address fault item s) as [resolved s1]. simpl in R1, R2.
    destruct (Classifier.classify s1
                (match resolved with Some a => a | None => "" end)
                (Subject item) (Body item)) as [d|] eqn:C.
    + assert (Hd : Classifier.dest d <> "ToDelete").
      { destruct (classify_dest _ _ _ _ C) as [(k & r & Hin & ->)|(k & r & Hin & ->)].
        - rewrite R1 in Hin. rewrite Forall_forall in He. exact (He _ Hin).
        - rewrite R2 in Hin. rewrite Forall_forall in Hk. exact (Hk _ Hin). }
      destruct (@execute_move_calls item (Classifier.dest d) inbox_folder
                  (Classifier.trigger d) (Classifier.match_type d) s1
                  (Outlook.record_call Outlook.ItemSubject mb) Hd) as (cs & E & Hn).
      exists (Outlook.ItemSubject :: cs). split.
      * rewrite E. simpl. now rewrite <- app_assoc.
      * intros [H|H]; [discriminate | contradiction].
    + exists [Outlook.ItemSubject]. simpl. split; [reflexivity|].
      intros [H|[]]. discriminate.
Qed.

Lemma no_delete_without_delete_rule_witness :
  exists cs,
    Outlook.calls (snd (Actions.process_email Healthy Sample.alice [] Sample.rules
                                              Sample.accepts_all))
    = (Outlook.calls Sample.accepts_all ++ cs)%list
    /\ ~ In Outlook.ItemDelete cs.
Proof.
  apply (@no_delete_without_delete_rule Healthy Sample.alice [] Sample.rules
           Sample.accepts_all).
  split; repeat constructor; simpl; discriminate.
Defined.

(** X13.  [process_email] returns [True] exactly when it has written one
    line to the live log; when it returns [False] the live log is as it
    was.  It never changes the rule tables. *)
Theorem process_email_logs_what_it_did :
  forall fault item inbox_folder s mb,
    (exists line,
        live_logger (snd (fst (Actions.process_email fault item inbox_folder s mb)))
        = if fst (fst (Actions.process_email fault item inbox_folder s mb))
          then (live_logger s ++ [(INFO, line)])%list
          else live_logger s)
    /\ email_rules (snd (fst (Actions.process_email fault item inbox_folder s mb)))
       = email_rules s
    /\ keyword_rules (snd (fst (Actions.process_email fault item inbox_folder s mb)))
       = keyword_rules s.
Proof.
  intros fault item inbox_folder s mb.
  unfold Actions.process_email, Actions.Item_Subject, Outlook.bind, Outlook.invoke,
    Outlook.ret.
  destruct (Outlook.refuses mb (Outlook.calls mb) Outlook.ItemSubject).
  - simpl. split; [now exists "" | split; reflexivity].
  - destruct (step_keeps_rules fault item s) as (R1 & R2 & R3).
    destruct (Cache.get_smtp_address fault item s) as [resolved s1].
    simpl in R1, R2, R3.
    destruct (Classifier.classify s1
                (match resolved with Some a => a | None => "" end)
                (Subject item) (Body item)) as [d|].
    + destruct (execute_log item (Classifier.dest d) inbox_folder
                  (Classifier.trigger d) (Classifier.match_type d) s1
                  (Outlook.record_call Outlook.ItemSubject mb)) as (line & E).
      rewrite E.
      destruct (fst (fst (Actions.execute_action item (Classifier.dest d) inbox_folder
                            (Classifier.trigger d) (Classifier.match_type d) s1
                            (Outlook.record_call Outlook.ItemSubject mb)))); simpl.
      * split; [exists line; now rewrite R3 | now split].
      * split; [exists line; exact R3 | now split].
    + simpl. split; [exists ""; exact R3 | now split].
Qed.

(** ** Find-or-create of the destination folder *)

Section FindOrCreate.
Import Outlook Actions.
Local Open Scope list_scope.

(** One turn of the walk with a client that accepts every call: the folder
    is looked up, and created when the lookup does not find it. *)
Lemma walk_step_accepted current_node part rest mb :
  (forall history c, refuses mb history c = false) ->
  walk current_node (part :: rest) mb
  = walk (child current_node part) rest
      (if exists_folder (child current_node part) mb
       then record_call (FoldersItem current_node part) mb
       else mkMailbox (folders mb ++ [child current_node part]) (location mb)
                      (refuses mb)
                      (calls mb ++ [FoldersItem current_node part;
                                    FoldersAdd current_node part])).
Proof.
  intros Hacc. simpl. unfold Folders_Item, bind, invoke. rewrite Hacc.
  rewrite exists_folder_record.
  destruct (exists_folder (child current_node part) mb) eqn:E; [reflexivity|].
  unfold Folders_Add, bind, invoke.
  change (refuses (record_call (FoldersItem current_node part) mb)) with (refuses mb).
  rewrite Hacc, !exists_folder_record, E.
  unfold record_call. simpl. now rewrite <- app_assoc.
Qed.

Lemma exists_folder_grows p q mb l r c :
  exists_folder p mb = true ->
  exists_folder p (mkMailbox (folders mb ++ [q]) l r c) = true.
Proof.
  unfold exists_folder. simpl. intros H. rewrite existsb_app, H. reflexivity.
Qed.

(** After the walk every folder on the path exists, and no folder that
    existed is gone. *)
Lemma walk_creates parts :
  forall current_node mb,
    (forall history c, refuses mb history c = false) ->
    refuses (snd (walk current_node parts mb)) = refuses mb
    /\ Forall (fun n => exists_folder n (snd (walk current_node parts mb)) = true)
              (nodes current_node parts)
    /\ (forall p, exists_folder p mb = true ->
                  exists_folder p (snd (walk current_node parts mb)) = true).
Proof.
  induction parts as [|part rest IH]; intros current_node mb Hacc.
  - simpl. repeat split; [constructor | tauto].
  - rewrite (@walk_step_accepted current_node part rest mb Hacc). simpl nodes.
    destruct (exists_folder (child current_node part) mb) eqn:E.
    + destruct (IH (child current_node part)
                   (record_call (FoldersItem current_node part) mb) Hacc)
        as (R & F & M).
      split; [exact R|]. split; [|intros p Hp; now apply M].
      constructor; [now apply M | exact F].
    + destruct (IH (child current_node part)
                   (mkMailbox (folders mb ++ [child current_node part]) (location mb)
                              (refuses mb)
                              (calls mb ++ [FoldersItem current_node part;
                                            FoldersAdd current_node part])) Hacc)
        as (R & F & M).
      split; [exact R|]. split.
      * constructor; [apply M, exists_folder_added | exact F].
      * intros p Hp. apply M. now apply exists_folder_grows.
Qed.

(** When every folder on the path exists, the walk only looks them up. *)
Lemma walk_found parts :
  forall current_node mb,
    (forall history c, refuses mb history c = false) ->
    Forall (fun n => exists_folder n mb = true) (nodes current_node parts) ->
    walk current_node parts mb
    = (Ok (current_node ++ parts),
       mkMailbox (folders mb) (location mb) (refuses mb)
                 (calls mb ++ lookups current_node parts)).
Proof.
  induction parts as [|part rest IH]; intros current_node mb Hacc Hex.
  - simpl. rewrite !app_nil_r. now destruct mb.
  - rewrite (@walk_step_accepted current_node part rest mb Hacc).
    simpl in Hex. inversion Hex as [|? ? Hhere Hrest]; subst.
    rewrite Hhere. rewrite IH; [|exact Hacc | exact Hrest].
    simpl. unfold child. now rewrite <- !app_assoc.
Qed.

Lemma join_split sep s : Py.join sep (Py.split sep s) = s.
Proof.
  induction s as [|c r IH]; simpl; [reflexivity|].
  destruct (Ascii.eqb_spec c sep) as [->|Hne].
  - pose proof (split_nonempty sep r) as Hn.
    destruct (Py.split sep r) as [|h t] eqn:E; [contradiction|].
    simpl. f_equal. exact IH.
  - pose proof (split_nonempty sep r) as Hn.
    destruct (Py.split sep r) as [|h t] eqn:E; [contradiction|].
    simpl in *. destruct t; simpl in *; now rewrite <- IH.
Qed.

Lemma split_parts_have_no_separator sep s :
  Forall (fun part => Py.contains (String sep EmptyString) part = false)
         (Py.split sep s).
Proof.
  induction s as [|c r IH]; simpl.
  - repeat constructor.
  - destruct (Ascii.eqb_spec c sep) as [->|Hne].
    + constructor; [reflexivity | exact IH].
    + pose proof (split_nonempty sep r) as Hn.
      destruct (Py.split sep r) as [|h t]; [contradiction|].
      inversion IH as [|? ? Hh Ht]; subst. constructor; [|exact Ht].
      simpl. destruct (Ascii.eqb_spec sep c) as [->|_]; [contradiction|].
      simpl. simpl in Hh. destruct h; exact Hh.
Qed.

(** The move branch with a client that accepts every call. *)
Lemma execute_move_accepted item dest_name inbox_folder trigger match_type s mb :
  dest_name <> "ToDelete"%string ->
  (forall history c, refuses mb history c = false) ->
  fst (fst (execute_action item dest_name inbox_folder trigger match_type s mb)) = true
  /\ location (snd (execute_action item dest_name inbox_folder trigger match_type s mb))
     = Some (inbox_folder ++ Py.split backslash dest_name)
  /\ folders (snd (execute_action item dest_name inbox_folder trigger match_type s mb))
     = folders (snd (walk inbox_folder (Py.split backslash dest_name) mb)).
Proof.
  intros Hne Hacc. unfold execute_action.
  rewrite (action_move item inbox_folder trigger match_type mb Hne).
  destruct (walk_accepted (Py.split backslash dest_name) inbox_folder mb Hacc) as [W _].
  destruct (walk_frame (Py.split backslash dest_name) inbox_folder mb) as (_ & R & _).
  destruct (walk inbox_folder (Py.split backslash dest_name) mb) as [[f|e] mb1];
    simpl in W, R; [|discriminate].
  injection W as ->. rewrite R, !Hacc. simpl. repeat split.
Qed.

End FindOrCreate.

(** X14.  Find-or-create: with a mail client that accepts every call, a
    walk creates the folders of the path that are missing and keeps the
    ones that exist; walking the same path again finds every folder, makes
    only lookups, creates nothing and ends in the same folder. *)
Theorem get_folder_recursive_is_idempotent :
  forall root_folder folder_path mb,
    (forall history c, Outlook.refuses mb history c = false) ->
    Forall (fun n =>
              Outlook.exists_folder n
                (snd (Actions.get_folder_recursive root_folder folder_path mb)) = true)
           (nodes root_folder (Py.split Actions.backslash folder_path))
    /\ (forall p,
           Outlook.exists_folder p mb = true ->
           Outlook.exists_folder p
             (snd (Actions.get_folder_recursive root_folder folder_path mb)) = true)
    /\ Actions.get_folder_recursive root_folder folder_path
         (snd (Actions.get_folder_recursive root_folder folder_path mb))
       = (Ok (root_folder ++ Py.split Actions.backslash folder_path)%list,
          Outlook.mkMailbox
            (Outlook.folders
               (snd (Actions.get_folder_recursive root_folder folder_path mb)))
            (Outlook.location mb) (Outlook.refuses mb)
            (Outlook.calls
               (snd (Actions.get_folder_recursive root_folder folder_path mb))
             ++ lookups root_folder (Py.split Actions.backslash folder_path))%list).
Proof.
  intros root_folder folder_path mb Hacc. unfold Actions.get_folder_recursive.
  destruct (walk_creates (Py.split Actions.backslash folder_path) root_folder mb Hacc)
    as (R & F & M).
  destruct (walk_frame (Py.split Actions.backslash folder_path) root_folder mb)
    as (L & _ & _).
  split; [exact F|]. split; [exact M|].
  rewrite walk_found; [now rewrite L, R | | exact F].
  intros history c. rewrite R. apply Hacc.
Qed.

Lemma get_folder_recursive_is_idempotent_witness :
  Actions.get_folder_recursive [] "Projects\2024"
    (snd (Actions.get_folder_recursive [] "Projects\2024" Sample.accepts_all))
  = (Ok ["Projects"; "2024"],
     Outlook.mkMailbox [["Projects"]; ["Projects"; "2024"]] (Some [])
       (Outlook.refuses Sample.accepts_all)
       [Outlook.FoldersItem [] "Projects"; Outlook.FoldersAdd [] "Projects";
        Outlook.FoldersItem ["Projects"] "2024";
        Outlook.FoldersAdd ["Projects"] "2024";
        Outlook.FoldersItem [] "Projects";
        Outlook.FoldersItem ["Projects"] "2024"]).
Proof.
  destruct (@get_folder_recursive_is_idempotent [] "Projects\2024"
              Sample.accepts_all) as (_ & _ & H).
  - reflexivity.
  - exact H.
Defined.

(** X15.  The folder a message is moved to spells the destination: with a
    mail client that accepts every call and a destination other than
    [ToDelete], the message ends in the folder reached from the inbox by a
    non-empty list of names which, joined by backslashes, is the destination
    name, and none of which contains a backslash. *)
Theorem moved_folder_spells_destination :
  forall item dest_name inbox_folder trigger match_type s mb,
    dest_name <> "ToDelete" ->
    (forall history c, Outlook.refuses mb history c = false) ->
    exists names,
      Outlook.location
        (snd (Actions.execute_action item dest_name inbox_folder trigger
                                     match_type s mb))
      = Some (inbox_folder ++ names)%list
      /\ names <> []
      /\ Py.join Actions.backslash names = dest_name
      /\ Forall (fun name =>
                   Py.contains (String Actions.backslash EmptyString) name = false)
                names.
Proof.
  intros item dest_name inbox_folder trigger match_type s mb Hne Hacc.
  destruct (@execute_move_accepted item dest_name inbox_folder trigger match_type
              s mb Hne Hacc) as (_ & L & _).
  exists (Py.split Actions.backslash dest_name).
  split; [exact L|]. split; [apply split_nonempty|].
  split; [apply join_split | apply split_parts_have_no_separator].
Qed.

Lemma moved_folder_spells_destination_witness :
  exists names,
    Outlook.location
      (snd (Actions.execute_action Sample.alice "Projects\2024" ["Inbox"] "a@x.com"
                                   "EmailMatch" Sample.rules Sample.accepts_all))
    = Some (["Inbox"] ++ names)%list
    /\ names <> []
    /\ Py.join Actions.backslash names = "Projects\2024"
    /\ Forall (fun name =>
                 Py.contains (String Actions.backslash EmptyString) name = false)
              names.
Proof.
  apply (@moved_folder_spells_destination Sample.alice "Projects\2024" ["Inbox"]
           "a@x.com" "EmailMatch" Sample.rules Sample.accepts_all).
  - discriminate.
  - reflexivity.
Defined.

(** ** The migration of the spreadsheet cache *)

Section MigrateFacts.
Import Loader Migrate.
Local Open Scope list_scope.

Lemma lower_inv c r :
  Py.lower (String c r) = String c r -> Py.lower_ascii c = c /\ Py.lower r = r.
Proof. simpl. intros H. injection H as H1 H2. now split. Qed.

Lemma lstrip_lower s : Py.lower s = s -> Py.lower (Py.lstrip s) = Py.lstrip s.
Proof.
  induction s as [|c r IH]; intros H; [reflexivity|].
  destruct (lower_inv H) as [_ Hr]. simpl.
  destruct (Py.isspace c); [now apply IH | exact H].
Qed.

Lemma rstrip_lower s : Py.lower s = s -> Py.lower (Py.rstrip s) = Py.rstrip s.
Proof.
  induction s as [|c r IH]; intros H; [reflexivity|].
  destruct (lower_inv H) as [Hc Hr]. specialize (IH Hr). simpl.
  destruct (Py.rstrip r) as [|c' r'].
  - destruct (Py.isspace c); simpl; [reflexivity | now rewrite Hc].
  - simpl in *. now rewrite Hc, IH.
Qed.

(** A cleaned address is in lower case. *)
Lemma strip_lower s : Py.lower (Py.strip (Py.lower s)) = Py.strip (Py.lower s).
Proof.
  unfold Py.strip. apply rstrip_lower, lstrip_lower, lower_idem.
Qed.

Lemma rstrip_idem s : Py.rstrip (Py.rstrip s) = Py.rstrip s.
Proof.
  induction s as [|c r IH]; [reflexivity|]. simpl.
  destruct (Py.rstrip r) as [|c' r'] eqn:E.
  - destruct (Py.isspace c) eqn:S; simpl; [reflexivity | now rewrite S].
  - change (Py.rstrip (String c (String c' r')))
      with (match Py.rstrip (String c' r') with
            | EmptyString => if Py.isspace c then EmptyString else String c EmptyString
            | kept => String c kept
            end).
    now rewrite IH.
Qed.

Lemma lstrip_head s :
  match Py.lstrip s with
  | EmptyString => True
  | String c _ => Py.isspace c = false
  end.
Proof.
  induction s as [|c r IH]; simpl; [exact I|].
  destruct (Py.isspace c) eqn:S; [exact IH | exact S].
Qed.

Lemma lstrip_rstrip s :
  match s with EmptyString => True | String c _ => Py.isspace c = false end ->
  Py.lstrip (Py.rstrip s) = Py.rstrip s.
Proof.
  destruct s as [|c r]; [reflexivity|]. intros H. cbn [Py.rstrip].
  destruct (Py.rstrip r); cbn [Py.lstrip]; rewrite H; cbn [Py.lstrip];
    now rewrite ?H.
Qed.

(** Stripping twice is stripping once. *)
Lemma strip_idem s : Py.strip (Py.strip s) = Py.strip s.
Proof.
  unfold Py.strip. rewrite lstrip_rstrip by apply lstrip_head. apply rstrip_idem.
Qed.

Lemma clean_idem c : clean (clean c) = clean c.
Proof.
  destruct c; simpl; try reflexivity.
  now rewrite strip_lower, strip_idem.
Qed.

Lemma cell_get_filter (R : Type) c k (rows : list (cell * R)) :
  cell_eqb c k = false ->
  cell_get c (filter (fun x => negb (cell_eqb k (fst x))) rows) = cell_get c rows.
Proof.
  intros Hck. induction rows as [|x rows IH]; simpl; [reflexivity|].
  destruct (cell_eqb k (fst x)) eqn:E; simpl.
  - apply cell_eqb_eq in E. subst k. now rewrite Hck.
  - now rewrite IH.
Qed.

(** Dropping duplicates keeps the first row of every address. *)
Lemma drop_duplicates_get (R : Type) c (rows : list (cell * R)) :
  cell_get c (drop_duplicates rows) = cell_get c rows.
Proof.
  induction rows as [|r rows IH]; simpl; [reflexivity|].
  destruct (cell_eqb c (fst r)) eqn:E; [reflexivity|].
  rewrite cell_get_filter; [exact IH | exact E].
Qed.

Lemma drop_duplicates_incl (R : Type) (rows : list (cell * R)) r :
  In r (drop_duplicates rows) -> In r rows.
Proof.
  induction rows as [|x rows IH]; simpl; [tauto|].
  intros [H|H]; [now left | right].
  apply filter_In in H. now apply IH.
Qed.

(** Leaving rows out keeps the addresses distinct. *)
Lemma filter_keeps_distinct (R : Type) (keep : cell * R -> bool)
      (rows : list (cell * R)) :
  NoDup (map fst rows) -> NoDup (map fst (filter keep rows)).
Proof.
  intros Hrows. induction rows as [|r rows IH]; [constructor|].
  apply NoDup_cons_iff in Hrows. destruct Hrows as [Hfresh Hrest].
  cbn [filter]. destruct (keep r); [|now apply IH].
  cbn [map]. apply NoDup_cons; [|now apply IH].
  contradict Hfresh.
  apply in_map_iff in Hfresh. destruct Hfresh as (r' & Hsame & Hkept).
  rewrite <- Hsame. apply in_map. now apply filter_In in Hkept.
Qed.

(** After dropping duplicates no address occurs twice. *)
Lemma drop_duplicates_NoDup (R : Type) (rows : list (cell * R)) :
  NoDup (map fst (drop_duplicates rows)).
Proof.
  induction rows as [|r rows IH]; simpl; constructor.
  - intros Hin. apply in_map_iff in Hin. destruct Hin as (y & Hy & Hin).
    apply filter_In in Hin. destruct Hin as [_ Hne].
    rewrite <- Hy in Hne.
    assert (H : cell_eqb (fst y) (fst y) = true) by now apply cell_eqb_eq.
    rewrite H in Hne. discriminate.
  - now apply filter_keeps_distinct.
Qed.

(** Rows of two texts are the image of a table. *)
Lemma text_rows_table (df : list (cell * cell)) :
  Forall (fun r => exists k v, r = (Text k, Text v)) df ->
  exists t, df = map to_cells t.
Proof.
  induction 1 as [|r df (k & v & ->) _ [t ->]].
  - now exists [].
  - now exists ((k, v) :: t).
Qed.

Lemma cell_get_table k (t : list (string * string)) :
  cell_get (Text k) (map to_cells t)
  = match dict_get k t with Some v => Some (Text v) | None => None end.
Proof.
  induction t as [|[k0 v0] t IH]; simpl; [reflexivity|].
  destruct (String.eqb k k0); [reflexivity | exact IH].
Qed.

End MigrateFacts.

(** X16.  What [migrate] writes: no address occurs twice, every address is
    missing or a text in lower case without blanks at its ends (cleaning it
    again changes nothing), and each address carries the rest of the first
    sheet row that has this address after cleaning. *)
Theorem migrate_keeps_first_row_per_address :
  forall (R : Type) (rows : list (Loader.cell * R)) fault written,
    Migrate.migrate (Migrate.Sheet rows) fault = Migrate.Written written ->
    NoDup (map fst written)
    /\ Forall (fun c => Migrate.clean c = c) (map fst written)
    /\ (forall c,
           Migrate.cell_get c written
           = Migrate.cell_get c
               (map (fun r => (Migrate.clean (fst r), snd r)) rows)).
Proof.
  intros R rows fault written H. unfold Migrate.migrate in H.
  destruct (Migrate.str_accessor (map fst rows)); [|discriminate].
  assert (E : written
              = Migrate.drop_duplicates
                  (map (fun r => (Migrate.clean (fst r), snd r)) rows)).
  { destruct fault; try discriminate; now injection H. }
  subst written. split; [apply drop_duplicates_NoDup|]. split.
  - apply Forall_forall. intros c Hc. apply in_map_iff in Hc.
    destruct Hc as (r & <- & Hr). apply drop_duplicates_incl in Hr.
    apply in_map_iff in Hr. destruct Hr as (r0 & <- & _). simpl. apply clean_idem.
  - intros c. apply drop_duplicates_get.
Qed.

Lemma migrate_keeps_first_row_per_address_witness :
  Migrate.migrate (Migrate.Sheet (map Migrate.to_cells Sample.cache_sheet)) Healthy
  = Migrate.Written
      [(Loader.Text "/o=org/cn=alice", Loader.Text "alice@x.com");
       (Loader.Text "/o=org/cn=bob", Loader.Text "bob@x.com")]
  /\ NoDup [Loader.Text "/o=org/cn=alice"; Loader.Text "/o=org/cn=bob"].
Proof.
  split; [reflexivity|].
  apply (@migrate_keeps_first_row_per_address Loader.cell
           (map Migrate.to_cells Sample.cache_sheet) Healthy
           [(Loader.Text "/o=org/cn=alice", Loader.Text "alice@x.com");
            (Loader.Text "/o=org/cn=bob", Loader.Text "bob@x.com")]).
  reflexivity.
Defined.

(** X17.  The sorter reads what [migrate] wrote: for a sheet whose rows are
    texts, a write that reaches the table stores a table that
    [load_cache_from_db] loads as it is, and in which every cleaned address
    has the value of its first sheet row. *)
Theorem sorter_loads_migrated_table :
  forall (sheet : list (string * string)) fault,
    fault = Healthy \/ fault = IndexFails ->
    exists table,
      Migrate.migrate (Migrate.Sheet (map Migrate.to_cells sheet)) fault
      = Migrate.Written (map Migrate.to_cells table)
      /\ (forall s, db_file s = Table table ->
                    smtp_cache (Cache.load_cache_from_db s) = table)
      /\ (forall k, dict_get k table = dict_get k (map Migrate.clean_row sheet)).
Proof.
  intros sheet fault Hfault.
  set (cleaned := map (fun r => (Migrate.clean (fst r), snd r))
                      (map Migrate.to_cells sheet)).
  assert (Hc : cleaned = map Migrate.to_cells (map Migrate.clean_row sheet)).
  { unfold cleaned. rewrite !map_map. apply map_ext. now intros [a v]. }
  assert (Hacc : Migrate.str_accessor (map fst (map Migrate.to_cells sheet)) = true).
  { destruct sheet as [|[a v] rest]; reflexivity. }
  assert (Hm : Migrate.migrate (Migrate.Sheet (map Migrate.to_cells sheet)) fault
               = Migrate.Written (Migrate.drop_duplicates cleaned)).
  { unfold Migrate.migrate. rewrite Hacc. destruct Hfault as [-> | ->]; reflexivity. }
  destruct (@text_rows_table (Migrate.drop_duplicates cleaned)) as [table Ht].
  { apply Forall_forall. intros r Hr. apply drop_duplicates_incl in Hr.
    rewrite Hc in Hr. apply in_map_iff in Hr. destruct Hr as ([k v] & <- & _).
    now exists k, v. }
  assert (Hget : forall k, dict_get k table = dict_get k (map Migrate.clean_row sheet)).
  { intros k.
    pose proof (drop_duplicates_get (Loader.Text k) cleaned) as G.
    rewrite Ht, Hc, !cell_get_table in G.
    destruct (dict_get k table), (dict_get k (map Migrate.clean_row sheet));
      congruence. }
  exists table. split; [now rewrite Hm, Ht|]. split; [|exact Hget].
  intros s Hdb. apply load_of_flushed; [exact Hdb | |].
  - pose proof (drop_duplicates_NoDup cleaned) as N. rewrite Ht in N.
    unfold dict_wf, keys.
    assert (Hk : map fst (map Migrate.to_cells table) = map Loader.Text (map fst table)).
    { rewrite !map_map. reflexivity. }
    rewrite Hk in N. revert N. generalize (map fst table). intros l.
    induction l as [|x l IH]; intros N; [constructor|].
    inversion N as [|? ? Hx Hl]; subst. constructor; [|now apply IH].
    intros Hin. apply Hx. now apply in_map.
  - unfold normalised. apply Forall_forall. intros k Hk.
    apply dict_get_In in Hk. rewrite Hget in Hk. apply dict_get_In in Hk.
    unfold keys in Hk. rewrite map_map in Hk. apply in_map_iff in Hk.
    destruct Hk as ([a v] & <- & _). simpl. apply strip_lower.
Qed.

Lemma sorter_loads_migrated_table_witness :
  exists table,
    Migrate.migrate (Migrate.Sheet (map Migrate.to_cells Sample.cache_sheet)) Healthy
    = Migrate.Written (map Migrate.to_cells table)
    /\ (forall s, db_file s = Table table ->
                  smtp_cache (Cache.load_cache_from_db s) = table)
    /\ (forall k, dict_get k table
                  = dict_get k (map Migrate.clean_row Sample.cache_sheet)).
Proof.
  apply (@sorter_loads_migrated_table Sample.cache_sheet Healthy).
  left. reflexivity.
Defined.
